(** * fetch_recent_content.py: article aggregation and README splicing

    A shallow embedding of [src/fetch_recent_content.py] and the verification
    of its documented behaviour.

    Python values are represented as follows.
    - [str] is a list of Unicode code points ([N]); the literals of the
      source are ASCII and are written with [lit].
    - [int] is [Z]; [str.find] keeps its [-1] sentinel and slices keep
      Python's treatment of negative and out-of-range bounds.
    - an article ([Dict[str, Any]]) is a record whose two metric keys are
      optional, as [dict.get(key, 0)] in the source expects.
    - a raised exception is the [Raise] branch of [outcome].
    - list objects live in a store ([gmap] from locations to contents)
      where the identity of a list matters. *)

From Stdlib Require Import ZArith NArith List Bool Lia Ascii String.
From Stdlib Require Import Permutation Sorted.
From stdpp Require Import gmap.

Import ListNotations.
Local Open Scope Z_scope.

(** ** Python strings *)

Module Py.

Definition char := N.
Definition str := list char.

(** An ASCII literal of the source as a Python string. *)
Definition lit (s : string) : str :=
  List.map N_of_ascii (list_ascii_of_string s).

Definition NL : char := 10%N.

(** [len(s)] *)
Definition len {A} (s : list A) : Z := Z.of_nat (List.length s).

(** [str.isspace] on one code point: the characters CPython's
    [_PyUnicode_IsWhitespace] accepts, which are the ones [str.strip()]
    removes. *)
Definition isspace (c : char) : bool :=
  ((9 <=? c) && (c <=? 13) || (28 <=? c) && (c <=? 32)
   || (c =? 133) || (c =? 160) || (c =? 5760)
   || (8192 <=? c) && (c <=? 8202)
   || (c =? 8232) || (c =? 8233) || (c =? 8239) || (c =? 8287)
   || (c =? 12288))%N.

(** [s.lstrip()], [s.rstrip()], [s.strip()] *)
Fixpoint lstrip (s : str) : str :=
  match s with
  | c :: s' => if isspace c then lstrip s' else s
  | [] => []
  end.

Definition rstrip (s : str) : str := rev (lstrip (rev s)).

Definition strip (s : str) : str := rstrip (lstrip s).

(** [s.startswith(sub)] *)
Fixpoint startswith (sub s : str) : bool :=
  match sub, s with
  | [], _ => true
  | _ :: _, [] => false
  | c :: sub', d :: s' => (c =? d)%N && startswith sub' s'
  end.

(** The lowest index at which [sub] occurs in [s], if any. *)
Fixpoint index (sub s : str) : option nat :=
  if startswith sub s then Some 0%nat
  else match s with
       | [] => None
       | _ :: s' => option_map S (index sub s')
       end.

(** [s.find(sub)]: the lowest index, or [-1]. *)
Definition find (s sub : str) : Z :=
  match index sub s with
  | Some i => Z.of_nat i
  | None => -1
  end.

(** [sub in s] *)
Definition contains (sub s : str) : bool :=
  match index sub s with Some _ => true | None => false end.

(** Every index at which [sub] occurs in [s], ascending, the first one
    being at [base]. *)
Fixpoint occurrences_from (base : nat) (sub s : str) : list nat :=
  (if startswith sub s then [base] else [])
  ++ match s with
     | [] => []
     | _ :: s' => occurrences_from (S base) sub s'
     end.

Definition occurrences (sub s : str) : list nat := occurrences_from 0 sub s.

(** A slice bound as Python clamps it: a negative bound counts from the
    end, and the result is kept within [0 .. len]. *)
Definition clamp (n : Z) (i : Z) : nat :=
  Z.to_nat (if i <? 0 then Z.max (n + i) 0 else Z.min i n).

(** [s[:i]], [s[i:]] and [s[i:j]] *)
Definition slice_to {A} (s : list A) (i : Z) : list A :=
  firstn (clamp (len s) i) s.

Definition slice_from {A} (s : list A) (i : Z) : list A :=
  skipn (clamp (len s) i) s.

Definition slice {A} (s : list A) (i j : Z) : list A :=
  firstn (clamp (len s) j - clamp (len s) i) (skipn (clamp (len s) i) s).

(** Truthiness of a string: empty is false. *)
Definition truthy (s : str) : bool :=
  match s with [] => false | _ :: _ => true end.

End Py.

Import Py.

(** ** Exceptions *)

Inductive exn : Type :=
| ValueError (msg : string)
| HTTPError (msg : string).

Inductive outcome (A : Type) : Type :=
| Return (a : A)
| Raise (e : exn).

Arguments Return {A} a.
Arguments Raise {A} e.

#[global] Instance outcome_ret : MRet outcome := fun A a => Return a.

#[global] Instance outcome_bind : MBind outcome := fun A B k m =>
  match m with
  | Return a => k a
  | Raise e => Raise e
  end.

(** ** Articles and sources *)

(** An article dictionary.  Both sources set ['title'] and ['link'];
    only Dev.to articles carry the two counters. *)
Record Article : Type := mkArticle {
  title : str;
  link : str;
  positive_reactions_count : option Z;
  comments_count : option Z
}.

(** The two concrete subclasses of [ArticleSource], each with the field
    its constructor stores. *)
Inductive ArticleSource : Type :=
| RSSFeedSource (feed_url : str)
| DevToSource (username : str).

(** [isinstance(source, DevToSource)] *)
Definition isinstance_DevToSource (source : ArticleSource) : bool :=
  match source with
  | DevToSource _ => true
  | RSSFeedSource _ => false
  end.

(** ** Builtins used by the ranking code *)

(** [d.get(key, default)] on an optional key. *)
Definition get (v : option Z) (default : Z) : Z :=
  match v with
  | Some x => x
  | None => default
  end.

(** [a < b] on pairs of integers: Python compares tuples
    lexicographically. *)
Definition tuple_lt (a b : Z * Z) : bool :=
  (fst a <? fst b) || ((fst a =? fst b) && (snd a <? snd b)).

(** [sorted(l, key=key, reverse=True)].  Python's sort is stable, and
    [reverse=True] still leaves elements of equal key in their original
    order.  Elements are inserted from the right end of the input, each in
    front of the first element whose key is not greater than its own. *)
Fixpoint insert_reverse {A} (key : A -> Z * Z) (x : A) (l : list A) : list A :=
  match l with
  | [] => [x]
  | y :: l' =>
      if tuple_lt (key x) (key y) then y :: insert_reverse key x l'
      else x :: l
  end.

Definition sorted_reverse {A} (key : A -> Z * Z) (l : list A) : list A :=
  fold_right (insert_reverse key) [] l.

(** ** class ArticleFilter *)

Module ArticleFilter.

(** [lambda x: (x.get('positive_reactions_count', 0),
               x.get('comments_count', 0))] *)
Definition sort_key (x : Article) : Z * Z :=
  (get (positive_reactions_count x) 0, get (comments_count x) 0).

Definition get_top_articles (articles : list Article) (top_n : Z)
  : list Article :=
  let sorted_articles := sorted_reverse sort_key articles in
  slice_to sorted_articles top_n.

Definition limit_articles (articles : list Article) (limit : Z)
  : list Article :=
  slice_to articles limit.

End ArticleFilter.

(** ** class ArticleWriter *)

Module ArticleWriter.

(** [f.write(data)] on a file opened for writing: the file content grows
    at its end. *)
Definition write (f data : str) : str := f ++ data.

(** The bullet the f-string produces for one article. *)
Definition bullet (article : Article) : str :=
  lit "- [" ++ title article ++ lit "](" ++ link article ++ lit ")" ++ [NL].

(** [write_articles]: the content of the file once the [with] block is
    left.  Opening with mode ['w'] starts from an empty file. *)
Definition write_articles (articles : list Article) : str :=
  let f := [] in
  let f := write f (lit "## Articles" ++ [NL; NL]) in
  fold_left (fun f article => write f (bullet article)) articles f.

End ArticleWriter.

(** ** class ReadmeUpdater *)

Module ReadmeUpdater.

Definition start_marker : str := lit "<!-- ARTICLES -->".
Definition end_marker : str := lit "<!-- /ARTICLES -->".

(** The body of [update] over the two texts it reads: the decoded README
    and the articles file.  The markers are arguments here so that
    statements can range over them; [update] fixes them. *)
Definition splice (start_marker end_marker : str)
    (readme_content recent_articles : str) : outcome str :=
  let start_idx := find readme_content start_marker + len start_marker in
  let end_idx := find readme_content end_marker in
  if (start_idx =? -1) || (end_idx =? -1) then
    Raise (ValueError "Markers not found in README file")
  else
    let updated_content :=
      strip (slice_to readme_content start_idx) ++ [NL; NL]
      ++ strip recent_articles ++ [NL]
      ++ strip (slice_from readme_content end_idx) in
    Return updated_content.

(** [update]: what is handed to [repo.update_file] as the new README, or
    the exception raised before that call. *)
Definition update (readme_content recent_articles : str) : outcome str :=
  splice start_marker end_marker readme_content recent_articles.

End ReadmeUpdater.

(** ** Regular-expression character classes *)

(** [re] decides [\w] and [\d] on a [str] pattern with the Unicode
    character database, which is not part of this repository.  The two
    classes are taken as given; on ASCII they are the familiar ones. *)
Definition ascii_digit (c : char) : bool := ((48 <=? c) && (c <=? 57))%N.

Definition ascii_word (c : char) : bool :=
  ((97 <=? c) && (c <=? 122) || (65 <=? c) && (c <=? 90)
   || ascii_digit c || (c =? 95))%N.

Class CharClasses : Type := {
  re_w : char -> bool;
  re_d : char -> bool;
  re_w_ascii : forall c, (c < 128)%N -> re_w c = ascii_word c;
  re_d_ascii : forall c, (c < 128)%N -> re_d c = ascii_digit c
}.

(** The classes of a pattern compiled with [re.ASCII]; they show that the
    interface above is inhabited. *)
Definition ascii_classes : CharClasses := {|
  re_w := ascii_word;
  re_d := ascii_digit;
  re_w_ascii := fun _ _ => eq_refl;
  re_d_ascii := fun _ _ => eq_refl
|}.

(** ** class DevToSource *)

Module DevToSource.
Section Regex.
Context `{CharClasses}.

(** Membership in the set [[\w\d]]. *)
Definition in_set (c : char) : bool := re_w c || re_d c.

(** The longest prefix of [s] made of characters of the set. *)
Fixpoint run (s : str) : str :=
  match s with
  | c :: s' => if in_set c then c :: run s' else []
  | [] => []
  end.

(** [([\w\d]+)] at the head of [s]: greedy, at least one character. *)
Definition match_group (s : str) : option str :=
  match run s with
  | [] => None
  | g => Some g
  end.

(** [@?([\w\d]+)] at the head of [s]: the optional [@] is tried first
    and given up when the group fails behind it. *)
Definition match_handle (s : str) : option str :=
  match s with
  | c :: s' =>
      if (c =? 64)%N then
        match match_group s' with
        | Some g => Some g
        | None => match_group s
        end
      else match_group s
  | [] => None
  end.

(** The whole pattern [dev\.to\/@?([\w\d]+)] anchored at the head of [s];
    the result is group 1. *)
Definition match_here (s : str) : option str :=
  if startswith (lit "dev.to/") s then match_handle (skipn 7 s) else None.

(** [re.search]: the match at the leftmost position that has one. *)
Fixpoint search (s : str) : option str :=
  match match_here s with
  | Some g => Some g
  | None =>
      match s with
      | [] => None
      | _ :: s' => search s'
      end
  end.

Definition extract_username_from_url (profile_url : str) : option str :=
  match search profile_url with
  | Some group1 => Some group1
  | None => None
  end.

End Regex.
End DevToSource.

(** ** class SourceFactory *)

Module SourceFactory.
Section Factory.
Context `{CharClasses}.

Definition create_source (url : str) : option ArticleSource :=
  if contains (lit "dev.to") url then
    match DevToSource.extract_username_from_url url with
    | Some username =>
        if truthy username then Some (DevToSource username) else None
    | None => None
    end
  else Some (RSSFeedSource url).

End Factory.
End SourceFactory.

(** ** main *)

Section Main.
Context `{CharClasses}.

(** [source.fetch_articles()] performs network I/O; its outcome for each
    source is an input of the model. *)
Variable fetch_articles : ArticleSource -> outcome (list Article).

(** The [for source in sources] loop, [all_articles] being the list it
    extends. *)
Fixpoint fetch_loop (article_limit : Z) (article_type : str)
    (sources : list ArticleSource) (all_articles : list Article)
  : outcome (list Article) :=
  match sources with
  | [] => Return all_articles
  | source :: sources' =>
      articles ← fetch_articles source;
      let articles :=
        if bool_decide (article_type = lit "top") && (article_limit >? 0)
           && isinstance_DevToSource source
        then ArticleFilter.get_top_articles articles article_limit
        else articles in
      fetch_loop article_limit article_type sources' (all_articles ++ articles)
  end.

(** The first two statements of [main]: build the sources and drop the
    [None]s. *)
Definition make_sources (feed_urls : list str) : list ArticleSource :=
  let sources := List.map SourceFactory.create_source feed_urls in
  omap id sources.

(** [main] up to the global limit: the list handed to the writer. *)
Definition collect_articles (sources : list ArticleSource)
    (article_limit : Z) (article_type : str) : outcome (list Article) :=
  all_articles ← fetch_loop article_limit article_type sources [];
  Return (ArticleFilter.limit_articles all_articles article_limit).

(** [main]: the articles file written and the README content sent to the
    repository, given the README content read from it. *)
Definition main (feed_urls : list str) (article_limit : Z)
    (article_type : str) (readme_content : str) : outcome (str * str) :=
  let sources := make_sources feed_urls in
  all_articles ← collect_articles sources article_limit article_type;
  let articles_md := ArticleWriter.write_articles all_articles in
  updated_content ← ReadmeUpdater.update readme_content articles_md;
  Return (articles_md, updated_content).

End Main.

(** ** List objects *)

(** [get_top_articles] once more, over list objects: a list is a location
    of a store, [sorted] builds a new list from the items of its argument
    and a slice builds another one.  The result is [None] only for an
    argument that is no list of the store. *)
Module Objects.

Definition loc := positive.

Definition alloc (items : list Article) (st : gmap loc (list Article))
  : loc * gmap loc (list Article) :=
  let l := fresh (dom st) in (l, <[l := items]> st).

Definition get_top_articles (articles : loc) (top_n : Z)
    (st : gmap loc (list Article))
  : option (loc * gmap loc (list Article)) :=
  items ← st !! articles;
  let '(sorted_articles, st) :=
    alloc (sorted_reverse ArticleFilter.sort_key items) st in
  items ← st !! sorted_articles;
  let '(top, st) := alloc (slice_to items top_n) st in
  Some (top, st).

End Objects.

(** ** The documented behaviour, as worded *)

(** The content section 4.5 of the design document describes for a splice:
    the kept prefix only right-trimmed and the kept suffix only
    left-trimmed.  It is compared with [ReadmeUpdater.splice] below. *)
Definition splice_as_documented (start_marker end_marker : str)
    (readme_content recent_articles : str) : str :=
  let start_idx := find readme_content start_marker + len start_marker in
  let end_idx := find readme_content end_marker in
  rstrip (slice_to readme_content start_idx) ++ [NL; NL]
  ++ strip recent_articles ++ [NL]
  ++ lstrip (slice_from readme_content end_idx).

(** A non-empty string whose first, respectively last, character is no
    white space: stripping leaves that end alone. *)
Definition starts_solid (s : str) : bool :=
  match s with
  | c :: _ => negb (isspace c)
  | [] => false
  end.

Definition ends_solid (s : str) : bool := starts_solid (rev s).

(** Lexicographic [<=] on key pairs. *)
Definition tuple_le (a b : Z * Z) : Prop :=
  fst a < fst b \/ (fst a = fst b /\ snd a <= snd b).

(** ** What the two sources build from a response *)

(** The outcome of the code that turns a response into articles: a value,
    or one of the two exceptions that code can raise by itself. *)
Inductive built (A : Type) : Type :=
| Built (a : A)
| KeyError (key : str)
| AttributeError (msg : string).

Arguments Built {A} a.
Arguments KeyError {A} key.
Arguments AttributeError {A} msg.

#[global] Instance built_bind : MBind built := fun A B k m =>
  match m with
  | Built a => k a
  | KeyError key => KeyError key
  | AttributeError msg => AttributeError msg
  end.

(** *** DevToSource.fetch_articles, after [response.json()] *)

(** The decoded response is a list of JSON objects, each a dictionary from
    keys to values of some type [V]; so is the list returned. *)
Module DevToResponse.
Section Articles.
Context {V : Type}.

(** [article[key]] *)
Definition getitem (article : gmap (list N) V) (key : str) : built V :=
  match article !! key with
  | Some v => Built v
  | None => KeyError key
  end.

(** The dictionary display of the comprehension; its values are
    evaluated in the order written. *)
Definition entry (article : gmap (list N) V) : built (gmap (list N) V) :=
  v_title ← getitem article (lit "title");
  v_link ← getitem article (lit "url");
  v_reactions ← getitem article (lit "positive_reactions_count");
  v_comments ← getitem article (lit "comments_count");
  Built (<[lit "title" := v_title]>
         (<[lit "link" := v_link]>
          (<[lit "positive_reactions_count" := v_reactions]>
           (<[lit "comments_count" := v_comments]> ∅)))).

(** The list comprehension over [articles]. *)
Fixpoint fetch_articles (articles : list (gmap (list N) V))
  : built (list (gmap (list N) V)) :=
  match articles with
  | [] => Built []
  | article :: articles' =>
      d ← entry article;
      ds ← fetch_articles articles';
      Built (d :: ds)
  end.

End Articles.
End DevToResponse.

(** *** RSSFeedSource._parse_feed_content, after [ET.fromstring] *)

Module RSSFeed.

(** An element of the parsed document: its tag, its text ([None] for an
    element without text) and its child elements in document order. *)
#[warnings="-register-all"]
Inductive Element : Type :=
| Elem (tag : str) (text : option str) (children : list Element).

Definition tag (e : Element) : str :=
  match e with Elem t _ _ => t end.

Definition text (e : Element) : option str :=
  match e with Elem _ x _ => x end.

Definition children (e : Element) : list Element :=
  match e with Elem _ _ c => c end.

(** [e.find(name)]: the first child with that tag, or [None]. *)
Definition find (e : Element) (name : str) : option Element :=
  List.find (fun c => bool_decide (tag c = name)) (children e).

(** [root.findall('./channel/item')]: the [item] children of the
    [channel] children of the root, in document order. *)
Definition findall_channel_item (root : Element) : list Element :=
  flat_map
    (fun channel =>
       List.filter (fun c => bool_decide (tag c = lit "item"))
         (children channel))
    (List.filter (fun c => bool_decide (tag c = lit "channel"))
       (children root)).

(** [x.text] on the result of [find]. *)
Definition text_of (found : option Element) : built (option str) :=
  match found with
  | Some e => Built (text e)
  | None => AttributeError "'NoneType' object has no attribute 'text'"
  end.

(** The dictionary [{'title': title, 'link': link}]; a value is [None]
    when the element has no text. *)
Record FeedArticle : Type := mkFeedArticle {
  feed_title : option str;
  feed_link : option str
}.

(** The [for item in ...] loop. *)
Fixpoint parse_items (items : list Element) : built (list FeedArticle) :=
  match items with
  | [] => Built []
  | item :: items' =>
      v_title ← text_of (find item (lit "title"));
      v_link ← text_of (find item (lit "link"));
      articles ← parse_items items';
      Built (mkFeedArticle v_title v_link :: articles)
  end.

Definition _parse_feed_content (root : Element) : built (list FeedArticle) :=
  parse_items (findall_channel_item root).

End RSSFeed.

(** ** The command line *)

(** [s.split(sep)] for a separator of one character. *)
Fixpoint split (sep : char) (s : str) : list str :=
  match s with
  | [] => [[]]
  | c :: s' =>
      if (c =? sep)%N then [] :: split sep s'
      else match split sep s' with
           | piece :: pieces => (c :: piece) :: pieces
           | [] => [[c]]
           end
  end.

(** [sep.join(pieces)] *)
Fixpoint join (sep : char) (pieces : list str) : str :=
  match pieces with
  | [] => []
  | [piece] => piece
  | piece :: pieces' => piece ++ sep :: join sep pieces'
  end.

(** [FEED_URLS = sys.argv[1].split(',')] *)
Definition FEED_URLS (argv1 : str) : list str := split 44%N argv1.

(** ** main with its file *)


(** The text of one bullet without its newline. *)
Definition bullet_line (article : Article) : str :=
  lit "- [" ++ title article ++ lit "](" ++ link article ++ lit ")".

(** What may follow a greedy run of the set [[\\w\\d]]: nothing, or a
    character outside the set. *)
Definition stops `{CharClasses} (post : str) : Prop :=
  match post with
  | [] => True
  | c :: _ => DevToSource.in_set c = false
  end.

(** A source whose fetch returns. *)
Definition fetches (fetch_articles : ArticleSource -> outcome (list Article))
    (source : ArticleSource) : Prop :=
  exists articles, fetch_articles source = Return articles.

(** The keys [DevToSource.fetch_articles] reads, in the order it reads
    them, and the first of them a dictionary lacks. *)
Definition devto_keys : list str :=
  [lit "title"; lit "url"; lit "positive_reactions_count";
   lit "comments_count"].

Definition first_missing {V} (article : gmap (list N) V) : option str :=
  List.find (fun key => bool_decide (article !! key = None)) devto_keys.

(** An item of a feed with both children [_parse_feed_content] reads. *)
Definition complete_item (item : RSSFeed.Element) : Prop :=
  is_Some (RSSFeed.find item (lit "title"))
  /\ is_Some (RSSFeed.find item (lit "link")).

(** The dictionary built from a Dev.to object that has the four keys. *)
Definition built_from {V} (article d : gmap (list N) V) : Prop :=
  d !! lit "title" = article !! lit "title"
  /\ d !! lit "link" = article !! lit "url"
  /\ d !! lit "positive_reactions_count"
     = article !! lit "positive_reactions_count"
  /\ d !! lit "comments_count" = article !! lit "comments_count"
  /\ forall key, is_Some (d !! key) -> In key
       [lit "title"; lit "link"; lit "positive_reactions_count";
        lit "comments_count"].

(** ** Sample inputs *)

Module Samples.

(** A README with both markers, padded with blanks at both ends. *)
Definition readme_padded : str :=
  lit " pre <!-- ARTICLES --> old <!-- /ARTICLES --> post ".

(** A README with both markers, in order. *)
Definition readme_plain : str :=
  lit "pre <!-- ARTICLES --> old <!-- /ARTICLES --> post".

(** A README whose start marker is missing. *)
Definition readme_no_start : str := lit "# Hi <!-- /ARTICLES --> bye".

(** A README whose end marker comes first. *)
Definition readme_swapped : str :=
  lit "a <!-- /ARTICLES --> b <!-- ARTICLES --> c".

Definition article_a : Article :=
  mkArticle (lit "A") (lit "http://x") (Some 3) (Some 1).
Definition article_b : Article :=
  mkArticle (lit "B") (lit "http://y") (Some 5) (Some 0).
Definition article_c : Article :=
  mkArticle (lit "C") (lit "http://z") None None.
Definition article_d : Article :=
  mkArticle (lit "D") (lit "http://w") (Some 5) (Some 0).

End Samples.

(** [x] may stand before [y] in a list that is non-increasing by [key]. *)
Definition before {A} (key : A -> Z * Z) (x y : A) : Prop :=
  tuple_le (key y) (key x).

(** The exception [update] raises. *)
Definition not_found : exn := ValueError "Markers not found in README file".

(** What the loop of [main] adds for one source, as the policy is worded:
    ranked when the source is a Dev.to one, the type is ["top"] and the
    limit is positive, untouched otherwise. *)
Definition contribution (fetched : ArticleSource -> list Article)
    (article_limit : Z) (article_type : str) (source : ArticleSource)
  : list Article :=
  if decide (isinstance_DevToSource source = true
             /\ article_type = lit "top" /\ 0 < article_limit)
  then ArticleFilter.get_top_articles (fetched source) article_limit
  else fetched source.

(** A string of ASCII characters. *)
Definition is_ascii (s : str) : Prop := Forall (fun c => (c < 128)%N) s.

(** * Properties *)

(** ** Strings: prefixes and first occurrences *)

Section StringFacts.

Implicit Types (s sub u v w : str) (c : char).

Lemma startswith_true sub s :
  startswith sub s = true <-> exists post, s = sub ++ post.
Proof.
  revert s; induction sub as [|c sub IH]; intros s; simpl.
  - split; [intros _; now exists s | reflexivity].
  - destruct s as [|d s].
    + split; [discriminate | intros [post Hp]; discriminate].
    + rewrite andb_true_iff, N.eqb_eq, IH. split.
      * intros [-> [post ->]]. now exists post.
      * intros [post Hp]. injection Hp as -> ->. split; [reflexivity | now exists post].
Qed.

Lemma startswith_app sub post : startswith sub (sub ++ post) = true.
Proof. apply startswith_true. now exists post. Qed.

Lemma startswith_app_l sub u v :
  startswith sub u = true -> startswith sub (u ++ v) = true.
Proof.
  rewrite !startswith_true. intros [post ->]. exists (post ++ v).
  now rewrite <- List.app_assoc.
Qed.

Lemma startswith_long sub u v :
  (List.length sub <= List.length u)%nat ->
  startswith sub (u ++ v) = startswith sub u.
Proof.
  revert u; induction sub as [|c sub IH]; intros u Hlen; [reflexivity|].
  destruct u as [|d u]; simpl in *; [lia|].
  rewrite IH by lia. reflexivity.
Qed.

Lemma startswith_sep sub u v c :
  ~ In c sub -> startswith sub (u ++ c :: v) = startswith sub u.
Proof.
  revert u; induction sub as [|d sub IH]; intros u Hc; [reflexivity|].
  destruct u as [|e u]; simpl.
  - destruct (N.eqb_spec d c) as [->|_]; [|reflexivity].
    exfalso. apply Hc. now left.
  - rewrite IH; [reflexivity|]. intros Hin. apply Hc. now right.
Qed.

Lemma startswith_nil sub : startswith sub [] = true -> sub = [].
Proof. destruct sub; [reflexivity | discriminate]. Qed.

Lemma index_nil s : index [] s = Some 0%nat.
Proof. destruct s; reflexivity. Qed.

Lemma index_empty sub : sub <> [] -> index sub [] = None.
Proof. destruct sub; [congruence | reflexivity]. Qed.

Lemma index_cons sub c s :
  index sub (c :: s) =
  if startswith sub (c :: s) then Some 0%nat else option_map S (index sub s).
Proof. reflexivity. Qed.

Lemma index_app_here sub u v :
  index sub (u ++ sub ++ v) = Some (List.length u) ->
  forall v', index sub (u ++ sub ++ v') = Some (List.length u).
Proof.
  induction u as [|e u IH]; intros Hi v'.
  - simpl. destruct (sub ++ v') eqn:E; simpl; rewrite <- ?E, startswith_app;
      reflexivity.
  - simpl List.app in *. rewrite index_cons in *.
    replace (e :: u ++ sub ++ v') with ((e :: u ++ sub) ++ v')
      by (simpl; now rewrite <- List.app_assoc).
    replace (e :: u ++ sub ++ v) with ((e :: u ++ sub) ++ v) in Hi
      by (simpl; now rewrite <- List.app_assoc).
    rewrite startswith_long in * by (simpl; rewrite List.length_app; lia).
    destruct (startswith sub (e :: u ++ sub)); [discriminate|].
    destruct (index sub (u ++ sub ++ v)) as [i|] eqn:Ev; [|discriminate].
    simpl in Hi. injection Hi as ->. now rewrite (IH eq_refl v').
Qed.

Lemma index_skip sub w s n :
  index sub (w ++ s) = Some (List.length w + n)%nat -> index sub s = Some n.
Proof.
  induction w as [|e w IH]; intros Hi; [exact Hi|].
  simpl List.app in Hi. rewrite index_cons in Hi.
  destruct (startswith sub (e :: w ++ s)); [discriminate|].
  destruct (index sub (w ++ s)) as [i|] eqn:Ev; [|discriminate].
  simpl in Hi. injection Hi as ->. now apply IH.
Qed.

Lemma index_None_app_r sub w s :
  index sub (w ++ s) = None -> index sub s = None.
Proof.
  induction w as [|e w IH]; intros Hi; [exact Hi|].
  simpl List.app in Hi. rewrite index_cons in Hi.
  destruct (startswith sub (e :: w ++ s)); [discriminate|].
  destruct (index sub (w ++ s)); [discriminate|]. now apply IH.
Qed.

Lemma index_None_app_l sub u v :
  index sub (u ++ v) = None -> index sub u = None.
Proof.
  induction u as [|e u IH]; intros Hi.
  - simpl in *. destruct (startswith sub []) eqn:E; [|reflexivity].
    apply startswith_nil in E as ->. now rewrite index_nil in Hi.
  - simpl List.app in Hi. rewrite index_cons in *.
    destruct (startswith sub (e :: u)) eqn:E.
    + apply startswith_app_l with (v := v) in E. simpl List.app in E.
      now rewrite E in Hi.
    + destruct (startswith sub (e :: u ++ v)); [discriminate|].
      destruct (index sub (u ++ v)); [discriminate|]. now rewrite IH.
Qed.

Lemma index_before sub u v q :
  sub <> [] -> index sub (u ++ v) = Some q -> (List.length u <= q)%nat ->
  index sub u = None.
Proof.
  intros Hsub. revert q; induction u as [|e u IH]; intros q Hi Hq.
  - simpl. destruct (startswith sub []) eqn:E; [|reflexivity].
    now apply startswith_nil in E.
  - simpl List.app in Hi. rewrite index_cons in *.
    destruct (startswith sub (e :: u)) eqn:E.
    + apply startswith_app_l with (v := v) in E. simpl List.app in E.
      rewrite E in Hi. injection Hi as <-. simpl in Hq. lia.
    + destruct (startswith sub (e :: u ++ v)).
      * injection Hi as <-. simpl in Hq. lia.
      * destruct (index sub (u ++ v)) as [i|] eqn:Ev; [|discriminate].
        simpl in Hi. injection Hi as <-. simpl in Hq.
        rewrite (IH i); [reflexivity | reflexivity | lia].
Qed.

Lemma index_sep sub u v c :
  ~ In c sub ->
  index sub (u ++ c :: v) =
  match index sub u with
  | Some i => Some i
  | None => option_map (fun k => (List.length u + 1 + k)%nat) (index sub v)
  end.
Proof.
  intros Hc. induction u as [|e u IH].
  - simpl List.app. rewrite index_cons.
    pose proof (startswith_sep sub [] v c Hc) as E. simpl List.app in E.
    rewrite E. simpl index.
    destruct (startswith sub []); [reflexivity|].
    destruct (index sub v); reflexivity.
  - simpl List.app. rewrite !index_cons.
    pose proof (startswith_sep sub (e :: u) v c Hc) as E. simpl List.app in E.
    rewrite E.
    destruct (startswith sub (e :: u)); [reflexivity|].
    rewrite IH. destruct (index sub u); [reflexivity|].
    destruct (index sub v); reflexivity.
Qed.

Lemma index_split sub s i :
  index sub s = Some i ->
  exists pre post, s = pre ++ sub ++ post /\ List.length pre = i.
Proof.
  revert i; induction s as [|e s IH]; intros i Hi.
  - simpl in Hi. destruct (startswith sub []) eqn:E; [|discriminate].
    injection Hi as <-. apply startswith_nil in E as ->. now exists [], [].
  - rewrite index_cons in Hi. destruct (startswith sub (e :: s)) eqn:E.
    + injection Hi as <-. apply startswith_true in E as [post Hp].
      now exists [], post.
    + destruct (index sub s) as [j|]; [|discriminate].
      simpl in Hi. injection Hi as <-.
      destruct (IH j eq_refl) as (pre & post & -> & Hl).
      exists (e :: pre), post. simpl. now rewrite Hl.
Qed.

End StringFacts.

(** ** Strings: stripping and slicing *)

Section StripFacts.

Implicit Types (s a b : str) (c : char).

Lemma lstrip_app a b : starts_solid b = true -> lstrip (a ++ b) = lstrip a ++ b.
Proof.
  intros Hb. induction a as [|c a IH]; simpl.
  - destruct b as [|d b]; [discriminate|]. simpl in *.
    now destruct (isspace d).
  - destruct (isspace c); [exact IH | reflexivity].
Qed.

Lemma lstrip_solid b : starts_solid b = true -> lstrip b = b.
Proof. intros Hb. exact (lstrip_app [] b Hb). Qed.

Lemma lstrip_idem a : lstrip (lstrip a) = lstrip a.
Proof.
  induction a as [|c a IH]; [reflexivity|]. simpl.
  destruct (isspace c) eqn:E; [exact IH|]. simpl. now rewrite E.
Qed.

Lemma lstrip_suffix a : exists w, a = w ++ lstrip a.
Proof.
  induction a as [|c a [w IH]]; [now exists []|]. simpl.
  destruct (isspace c); [|now exists []].
  exists (c :: w). simpl. now rewrite <- IH.
Qed.

Lemma lstrip_starts a : lstrip a = [] \/ starts_solid (lstrip a) = true.
Proof.
  induction a as [|c a IH]; [now left|]. simpl.
  destruct (isspace c) eqn:E; [exact IH|]. right. simpl. now rewrite E.
Qed.

Lemma rstrip_app a b : ends_solid a = true -> rstrip (a ++ b) = a ++ rstrip b.
Proof.
  intros Ha. unfold rstrip, ends_solid in *.
  rewrite rev_app_distr, lstrip_app by exact Ha.
  now rewrite rev_app_distr, rev_involutive.
Qed.

Lemma rstrip_solid a : ends_solid a = true -> rstrip a = a.
Proof.
  intros Ha. rewrite <- (app_nil_r a) at 1. rewrite rstrip_app by exact Ha.
  apply app_nil_r.
Qed.

Lemma rstrip_idem a : rstrip (rstrip a) = rstrip a.
Proof. unfold rstrip. now rewrite rev_involutive, lstrip_idem. Qed.

Lemma rstrip_prefix a : exists w, a = rstrip a ++ w.
Proof.
  destruct (lstrip_suffix (rev a)) as [w Hw]. exists (rev w). unfold rstrip.
  rewrite <- rev_app_distr, <- Hw. symmetry. apply rev_involutive.
Qed.

Lemma rstrip_ends a : rstrip a = [] \/ ends_solid (rstrip a) = true.
Proof.
  unfold rstrip, ends_solid. rewrite rev_involutive.
  destruct (lstrip_starts (rev a)) as [-> | Hs]; [now left | now right].
Qed.

Lemma starts_solid_app a b : starts_solid a = true -> starts_solid (a ++ b) = true.
Proof. destruct a; [discriminate | trivial]. Qed.

Lemma ends_solid_app a b : ends_solid b = true -> ends_solid (a ++ b) = true.
Proof.
  unfold ends_solid. rewrite rev_app_distr. apply starts_solid_app.
Qed.

(** Stripping a text that ends with a solid block only trims its head, and
    stripping one that begins with a solid block only trims its tail. *)
Lemma strip_before a b :
  starts_solid b = true -> ends_solid b = true ->
  strip (a ++ b) = lstrip a ++ b.
Proof.
  intros Hs He. unfold strip. rewrite lstrip_app by exact Hs.
  apply rstrip_solid. now apply ends_solid_app.
Qed.

Lemma strip_after b a :
  starts_solid b = true -> ends_solid b = true ->
  strip (b ++ a) = b ++ rstrip a.
Proof.
  intros Hs He. unfold strip.
  rewrite lstrip_solid by now apply starts_solid_app.
  now apply rstrip_app.
Qed.

Lemma strip_substring a : exists w1 w2, a = w1 ++ strip a ++ w2.
Proof.
  destruct (lstrip_suffix a) as [w1 H1].
  destruct (rstrip_prefix (lstrip a)) as [w2 H2].
  exists w1, w2. unfold strip. now rewrite <- H2.
Qed.

Lemma index_strip_None sub a : index sub a = None -> index sub (strip a) = None.
Proof.
  destruct (strip_substring a) as (w1 & w2 & Ha). intros Hi.
  rewrite Ha in Hi. apply index_None_app_r in Hi.
  now apply index_None_app_l in Hi.
Qed.

End StripFacts.

Section SliceFacts.

Context {A : Type}.
Implicit Types (l u v : list A).

Lemma clamp_nonneg n i : 0 <= i -> clamp n i = Z.to_nat (Z.min i n).
Proof. intros Hi. unfold clamp. now destruct (Z.ltb_spec i 0); [lia|]. Qed.

Lemma clamp_neg n i : i < 0 -> clamp n i = Z.to_nat (Z.max (n + i) 0).
Proof. intros Hi. unfold clamp. now destruct (Z.ltb_spec i 0); [|lia]. Qed.

Lemma clamp_le n i : 0 <= n -> (clamp n i <= Z.to_nat n)%nat.
Proof. intros Hn. unfold clamp. destruct (Z.ltb_spec i 0); lia. Qed.

Lemma slice_to_app u v : slice_to (u ++ v) (len u) = u.
Proof.
  unfold slice_to, len. rewrite clamp_nonneg by lia.
  rewrite List.length_app.
  replace (Z.to_nat _) with (List.length u + 0)%nat by lia.
  rewrite firstn_app_2. simpl. apply app_nil_r.
Qed.

Lemma slice_from_app u v : slice_from (u ++ v) (len u) = v.
Proof.
  unfold slice_from, len. rewrite clamp_nonneg by lia.
  rewrite List.length_app.
  replace (Z.to_nat _) with (List.length u) by lia.
  rewrite skipn_app, skipn_all, Nat.sub_diag. reflexivity.
Qed.

Lemma slice_to_length l n :
  len (slice_to l n) =
  if n <? 0 then Z.max (len l + n) 0 else Z.min n (len l).
Proof.
  unfold slice_to, len, clamp. rewrite List.length_firstn.
  destruct (Z.ltb_spec n 0); lia.
Qed.

Lemma slice_to_prefix l n : exists rest, l = slice_to l n ++ rest.
Proof.
  exists (skipn (clamp (len l) n) l). unfold slice_to.
  symmetry. apply firstn_skipn.
Qed.

Lemma slice_to_all l n : len l <= n -> slice_to l n = l.
Proof.
  intros Hn. unfold slice_to, len in *. rewrite clamp_nonneg by lia.
  apply firstn_all2. lia.
Qed.

Lemma slice_to_zero l : slice_to l 0 = [].
Proof.
  unfold slice_to. rewrite clamp_nonneg by lia.
  replace (Z.to_nat _) with 0%nat by (unfold len; lia). reflexivity.
Qed.

End SliceFacts.

(** ** Strings: all occurrences *)

Section OccurrenceFacts.

Implicit Types (s sub : str).

Lemma occurrences_from_head b sub s :
  head (occurrences_from b sub s) = option_map (Nat.add b) (index sub s).
Proof.
  revert b; induction s as [|e s IH]; intros b; simpl.
  - destruct (startswith sub []); simpl; [f_equal; lia | reflexivity].
  - destruct (startswith sub (e :: s)); simpl; [f_equal; lia|].
    rewrite IH. destruct (index sub s); simpl; [f_equal; lia | reflexivity].
Qed.

Lemma occurrences_first sub s p rest :
  occurrences sub s = p :: rest -> index sub s = Some p.
Proof.
  intros Ho. pose proof (occurrences_from_head 0 sub s) as Hh.
  fold (occurrences sub s) in Hh. rewrite Ho in Hh. simpl in Hh.
  destruct (index sub s); simpl in Hh; congruence.
Qed.

Lemma occurrences_none sub s : occurrences sub s = [] -> index sub s = None.
Proof.
  intros Ho. pose proof (occurrences_from_head 0 sub s) as Hh.
  fold (occurrences sub s) in Hh. rewrite Ho in Hh. simpl in Hh.
  destruct (index sub s); simpl in Hh; congruence.
Qed.

(** [occurrences] lists exactly the positions at which [sub] sits in [s]. *)
Lemma occurrences_from_spec b sub s i :
  In i (occurrences_from b sub s) <->
  exists pre post, s = pre ++ sub ++ post /\ i = (b + List.length pre)%nat.
Proof.
  revert b; induction s as [|e s IH]; intros b; simpl.
  - rewrite app_nil_r. split.
    + destruct (startswith sub []) eqn:E; simpl; [|tauto].
      intros [<- | []]. apply startswith_nil in E as ->.
      exists [], []. split; [reflexivity | simpl; lia].
    + intros (pre & post & Hs & ->).
      destruct pre; [|discriminate]. simpl in Hs.
      destruct sub; [|discriminate]. simpl. left. lia.
  - rewrite in_app_iff, IH. split.
    + intros [Hh | (pre & post & -> & ->)].
      * destruct (startswith sub (e :: s)) eqn:E; simpl in Hh; [|tauto].
        destruct Hh as [<- | []]. apply startswith_true in E as [post Hp].
        exists [], post. split; [exact Hp | simpl; lia].
      * exists (e :: pre), post. split; [reflexivity | simpl; lia].
    + intros (pre & post & Hs & ->). destruct pre as [|e' pre].
      * left. simpl in Hs. rewrite Hs, startswith_app. left. simpl. lia.
      * right. injection Hs as -> ->. exists pre, post.
        split; [reflexivity | simpl; lia].
Qed.

Lemma occurrences_spec sub s i :
  In i (occurrences sub s) <->
  exists pre post, s = pre ++ sub ++ post /\ List.length pre = i.
Proof.
  unfold occurrences. rewrite occurrences_from_spec.
  split; intros (pre & post & Hs & Hi); exists pre, post; split;
    auto; simpl in *; lia.
Qed.

(** [find] returns the first position of [occurrences], or [-1]. *)
Lemma find_occurrences s sub :
  find s sub = match occurrences sub s with
               | p :: _ => Z.of_nat p
               | [] => -1
               end.
Proof.
  unfold find. destruct (occurrences sub s) as [|p rest] eqn:E.
  - now rewrite (occurrences_none _ _ E).
  - now rewrite (occurrences_first _ _ _ _ E).
Qed.

(** Two occurrences that overlap: the first character of the later one is
    a character of the earlier one past its first. *)
Lemma overlap_shares_head sub1 sub2 e s p q :
  index sub1 s = Some p -> index (e :: sub2) s = Some q ->
  (p < q)%nat -> (q < p + List.length sub1)%nat -> In e (tl sub1).
Proof.
  intros H1 H2 Hpq Hq.
  destruct (index_split _ _ _ H1) as (a & r1 & Hs1 & Ha).
  destruct (index_split _ _ _ H2) as (x & r2 & Hs2 & Hx).
  assert (Hd : skipn q s = skipn (q - p) sub1 ++ r1).
  { rewrite Hs1 at 1. rewrite skipn_app, (skipn_all2 a) by lia.
    rewrite Ha, skipn_app. simpl.
    replace (q - p - List.length sub1)%nat with 0%nat by lia. reflexivity. }
  assert (He : skipn q s = e :: sub2 ++ r2).
  { rewrite Hs2 at 1. rewrite skipn_app, (skipn_all2 x) by lia.
    rewrite Hx, Nat.sub_diag. reflexivity. }
  destruct sub1 as [|c sub1]; [simpl in Hq; lia|].
  destruct (q - p)%nat as [|k] eqn:Ek; [lia|]. simpl in Hd |- *.
  destruct (skipn k sub1) as [|d t] eqn:Et.
  - apply (f_equal (@List.length _)) in Et. rewrite List.length_skipn in Et.
    simpl in Et, Hq. lia.
  - rewrite He in Hd. injection Hd as -> _.
    rewrite <- (firstn_skipn k sub1), Et. apply in_or_app. right. now left.
Qed.

End OccurrenceFacts.

(** ** ReadmeUpdater: the splice for arbitrary markers *)

Section SpliceFacts.

Import ReadmeUpdater.

Variables S E : str.
Implicit Types (doc R : str).

(** [start_idx] is an index plus a length: it is never the sentinel. *)
Lemma start_idx_not_sentinel doc : (find doc S + len S =? -1) = false.
Proof.
  apply Z.eqb_neq. unfold find, len. destruct (index S doc) eqn:Ei; [lia|].
  destruct S; [now rewrite index_nil in Ei | simpl; lia].
Qed.

Lemma splice_raise_iff doc R :
  splice S E doc R = Raise not_found <-> index E doc = None.
Proof.
  unfold splice. rewrite start_idx_not_sentinel. simpl orb. unfold find.
  destruct (index E doc) as [q|].
  - replace (Z.of_nat q =? -1) with false by (symmetry; apply Z.eqb_neq; lia).
    split; discriminate.
  - split; reflexivity.
Qed.

(** The result in terms of the two cuts: [U] ends with the first start
    marker and [Y] begins with the first end marker. *)
Lemma splice_parts doc R U V X Y p :
  doc = U ++ V -> doc = X ++ Y ->
  index S doc = Some p -> (p + List.length S = List.length U)%nat ->
  index E doc = Some (List.length X) ->
  splice S E doc R =
  Return (strip U ++ [NL; NL] ++ strip R ++ [NL] ++ strip Y).
Proof.
  intros HU HX HS Hp HE.
  assert (H1 : slice_to doc (len U) = U) by (rewrite HU; apply slice_to_app).
  assert (H2 : slice_from doc (len X) = Y)
    by (rewrite HX; apply slice_from_app).
  unfold splice. rewrite start_idx_not_sentinel. unfold find.
  rewrite HS, HE. fold (len X).
  replace (Z.of_nat p + len S) with (len U) by (unfold len; lia).
  replace (len X =? -1) with false
    by (symmetry; apply Z.eqb_neq; unfold len; lia).
  simpl orb. cbv iota. now rewrite H1, H2.
Qed.

Lemma splice_found doc R p q :
  index S doc = Some p -> index E doc = Some q ->
  splice S E doc R =
  Return (strip (firstn (p + List.length S) doc) ++ [NL; NL]
          ++ strip R ++ [NL] ++ strip (skipn q doc)).
Proof.
  intros HS HE.
  destruct (index_split _ _ _ HS) as (a & r1 & Hs1 & Ha).
  destruct (index_split _ _ _ HE) as (x & r2 & Hs2 & Hx).
  apply splice_parts with (V := skipn (p + List.length S) doc)
                          (X := firstn q doc) (p := p).
  - symmetry. apply firstn_skipn.
  - symmetry. apply firstn_skipn.
  - exact HS.
  - rewrite List.length_firstn, Hs1, !List.length_app. lia.
  - rewrite List.length_firstn, Hs2, !List.length_app.
    replace (Nat.min _ _) with q by lia. now rewrite <- Hs2.
Qed.

(** With the first occurrences of the markers made explicit. *)
Lemma splice_between A B C R :
  index S (A ++ S ++ B ++ E ++ C) = Some (List.length A) ->
  index E (A ++ S ++ B ++ E ++ C) = Some (List.length (A ++ S ++ B)) ->
  splice S E (A ++ S ++ B ++ E ++ C) R =
  Return (strip (A ++ S) ++ [NL; NL] ++ strip R ++ [NL] ++ strip (E ++ C)).
Proof.
  intros HS HE.
  apply splice_parts with (V := B ++ E ++ C) (X := A ++ S ++ B)
                          (p := List.length A).
  - now rewrite <- !List.app_assoc.
  - now rewrite <- !List.app_assoc.
  - exact HS.
  - now rewrite List.length_app.
  - exact HE.
Qed.

Hypothesis S_starts : starts_solid S = true.
Hypothesis S_ends : ends_solid S = true.
Hypothesis E_starts : starts_solid E = true.
Hypothesis E_ends : ends_solid E = true.
Hypothesis E_one_line : ~ In NL E.

Lemma E_nonempty : E <> [].
Proof using E_starts. intros HE. rewrite HE in E_starts. discriminate. Qed.

(** Markers that begin and end with a visible character: the prefix only
    loses leading white space and the suffix only trailing white space. *)
Lemma splice_between_solid A B C R :
  index S (A ++ S ++ B ++ E ++ C) = Some (List.length A) ->
  index E (A ++ S ++ B ++ E ++ C) = Some (List.length (A ++ S ++ B)) ->
  splice S E (A ++ S ++ B ++ E ++ C) R =
  Return (lstrip A ++ S ++ [NL; NL] ++ strip R ++ [NL] ++ E ++ rstrip C).
Proof.
  intros HS HE. rewrite splice_between by assumption.
  rewrite strip_before, strip_after by assumption.
  now rewrite <- !List.app_assoc.
Qed.

(** Splicing the outcome of a splice again changes nothing, provided the
    end marker comes after the start marker and is not in the new text. *)
Lemma splice_idempotent doc R p q :
  index S doc = Some p -> index E doc = Some q ->
  (p + List.length S <= q)%nat -> index E R = None ->
  exists out, splice S E doc R = Return out /\ splice S E out R = Return out.
Proof.
  intros HS HE Hpq HR.
  destruct (index_split _ _ _ HS) as (a & r1 & Hs1 & Ha).
  destruct (index_split _ _ _ HE) as (x & r2 & Hs2 & Hx).
  set (out := lstrip a ++ S ++ [NL; NL] ++ strip R ++ [NL] ++ E ++ rstrip r2).
  assert (Hout : splice S E doc R = Return out).
  { rewrite (splice_parts doc R (a ++ S) r1 x (E ++ r2) p); try assumption.
    - rewrite strip_before, strip_after by assumption.
      unfold out. now rewrite <- !List.app_assoc.
    - now rewrite Hs1, <- List.app_assoc.
    - rewrite List.length_app. lia.
    - now rewrite Hx. }
  exists out. split; [exact Hout|].
  (* the first start marker of [out] *)
  assert (HS' : index S out = Some (List.length (lstrip a))).
  { destruct (lstrip_suffix a) as [w Hw].
    apply index_app_here with (v := r1).
    apply index_skip with (w := w).
    rewrite List.app_assoc, <- Hw, <- Hs1, HS. f_equal.
    rewrite <- Ha, Hw at 1. now rewrite List.length_app. }
  (* no end marker up to the end of the start marker *)
  assert (HE0 : index E (lstrip a ++ S) = None).
  { destruct (lstrip_suffix a) as [w Hw].
    apply index_None_app_r with (w := w). rewrite List.app_assoc, <- Hw.
    apply index_before with (v := r1) (q := q).
    - exact E_nonempty.
    - now rewrite <- List.app_assoc, <- Hs1.
    - rewrite List.length_app. lia. }
  set (X' := (lstrip a ++ S) ++ [NL; NL] ++ strip R ++ [NL]).
  assert (HE' : index E out = Some (List.length X')).
  { unfold out.
    replace (lstrip a ++ S ++ [NL; NL] ++ strip R ++ [NL] ++ E ++ rstrip r2)
      with ((lstrip a ++ S) ++ NL :: [] ++ NL :: strip R ++ NL :: E ++ rstrip r2)
      by (simpl; now rewrite <- !List.app_assoc).
    rewrite index_sep, HE0 by exact E_one_line.
    rewrite index_sep by exact E_one_line.
    rewrite (index_empty E E_nonempty).
    rewrite index_sep, (index_strip_None _ _ HR) by exact E_one_line.
    replace (index E (E ++ rstrip r2)) with (Some 0%nat).
    2:{ destruct (E ++ rstrip r2) eqn:Eq; simpl;
        rewrite <- ?Eq, startswith_app; reflexivity. }
    simpl option_map. f_equal. unfold X'.
    rewrite !List.length_app. simpl. lia. }
  rewrite (splice_parts out R (lstrip a ++ S)
             ([NL; NL] ++ strip R ++ [NL] ++ E ++ rstrip r2)
             X' (E ++ rstrip r2) (List.length (lstrip a))).
  - rewrite strip_before, strip_after, lstrip_idem, rstrip_idem by assumption.
    unfold out. now rewrite <- !List.app_assoc.
  - unfold out. now rewrite <- !List.app_assoc.
  - unfold out, X'. now rewrite <- !List.app_assoc.
  - exact HS'.
  - now rewrite List.length_app.
  - exact HE'.
Qed.

End SpliceFacts.

(** ** ReadmeUpdater: an end marker that begins inside the kept prefix *)

Section SpliceOverlap.

Import ReadmeUpdater.

Variables S E : str.
Hypothesis S_ends : ends_solid S = true.
Hypothesis E_starts : starts_solid E = true.

Lemma ends_solid_inv s :
  ends_solid s = true -> exists t d, s = t ++ [d] /\ isspace d = false.
Proof.
  unfold ends_solid. intros Hs. destruct (rev s) as [|d t] eqn:Er.
  - discriminate.
  - exists (rev t), d. split.
    + rewrite <- (rev_involutive s), Er. reflexivity.
    + simpl in Hs. now destruct (isspace d).
Qed.

(** The text from the end marker up to the end of the start marker is
    kept at the end of the stripped prefix and again at the head of the
    stripped suffix. *)
Lemma splice_overlap doc R p q :
  index S doc = Some p -> index E doc = Some q ->
  (q < p + List.length S)%nat ->
  let span := skipn q (firstn (p + List.length S) doc) in
  span <> [] /\
  strip (firstn (p + List.length S) doc) = lstrip (firstn q doc) ++ span /\
  strip (skipn q doc) = span ++ rstrip (skipn (p + List.length S) doc) /\
  splice S E doc R =
  Return (lstrip (firstn q doc) ++ span ++ [NL; NL] ++ strip R ++ [NL]
          ++ span ++ rstrip (skipn (p + List.length S) doc)).
Proof using S_ends E_starts.
  intros HS HE Hq span.
  destruct (index_split _ _ _ HS) as (a & r1 & Hs1 & Ha).
  destruct (index_split _ _ _ HE) as (x & r2 & Hs2 & Hx).
  set (n := (p + List.length S)%nat) in *.
  assert (Hn : (n <= List.length doc)%nat)
    by (rewrite Hs1, !List.length_app; unfold n; lia).
  assert (HU : firstn n doc = a ++ S).
  { rewrite Hs1, List.app_assoc.
    replace n with (List.length (a ++ S) + 0)%nat
      by (rewrite List.length_app; unfold n; lia).
    rewrite firstn_app_2. simpl. apply app_nil_r. }
  assert (Hlen : List.length span = (n - q)%nat).
  { unfold span. rewrite List.length_skipn, List.length_firstn. lia. }
  assert (HX : firstn q doc = firstn q (firstn n doc)).
  { rewrite firstn_firstn. f_equal. lia. }
  assert (HY : skipn q doc = span ++ skipn n doc).
  { rewrite <- (firstn_skipn n doc) at 1. rewrite skipn_app.
    rewrite List.length_firstn.
    replace (q - Nat.min n (List.length doc))%nat with 0%nat by lia.
    reflexivity. }
  assert (Hne : span <> []).
  { intros Hs. rewrite Hs in Hlen. simpl in Hlen. lia. }
  assert (Hends : ends_solid span = true).
  { destruct (ends_solid_inv S S_ends) as (t & d & HSt & Hd).
    unfold span. rewrite HU, HSt, List.app_assoc, skipn_app.
    replace (q - List.length (a ++ t))%nat with 0%nat.
    2:{ rewrite List.length_app. unfold n in Hq. rewrite HSt in Hq.
        rewrite List.length_app in Hq. simpl in Hq. lia. }
    simpl skipn. apply ends_solid_app. unfold ends_solid. simpl. now rewrite Hd. }
  assert (Hstarts : starts_solid span = true).
  { assert (HYE : skipn q doc = E ++ r2).
    { rewrite Hs2 at 1. rewrite skipn_app, (skipn_all2 x) by lia.
      now rewrite Hx, Nat.sub_diag. }
    rewrite HYE in HY. destruct span as [|c span']; [congruence|].
    destruct E as [|e E']; [discriminate|].
    simpl in HY. injection HY as -> _. exact E_starts. }
  assert (H1 : strip (firstn n doc) = lstrip (firstn q doc) ++ span).
  { rewrite HX. rewrite <- (firstn_skipn q (firstn n doc)) at 1.
    now apply strip_before. }
  assert (H2 : strip (skipn q doc) = span ++ rstrip (skipn n doc)).
  { rewrite HY. now apply strip_after. }
  repeat split; try assumption.
  rewrite (splice_found S E doc R p q HS HE). fold n.
  rewrite H1, H2. now rewrite <- !List.app_assoc.
Qed.

End SpliceOverlap.

(** ** ReadmeUpdater.update: the markers of the source *)

Section MarkerFacts.

Import ReadmeUpdater.

Lemma start_marker_starts : starts_solid start_marker = true.
Proof. reflexivity. Qed.

Lemma start_marker_ends : ends_solid start_marker = true.
Proof. reflexivity. Qed.

Lemma end_marker_starts : starts_solid end_marker = true.
Proof. reflexivity. Qed.

Lemma end_marker_ends : ends_solid end_marker = true.
Proof. reflexivity. Qed.

Lemma end_marker_one_line : ~ In NL end_marker.
Proof. vm_compute. intuition discriminate. Qed.

(** The end marker opens with a character the start marker has at its
    head only: an end marker cannot begin inside a start marker. *)
Lemma end_marker_head : exists t, end_marker = 60%N :: t.
Proof. eexists. reflexivity. Qed.

Lemma start_marker_tail : ~ In 60%N (tl start_marker).
Proof. vm_compute. intuition discriminate. Qed.

Lemma markers_apart doc p q :
  index start_marker doc = Some p -> index end_marker doc = Some q ->
  (p < q)%nat -> (p + List.length start_marker <= q)%nat.
Proof.
  intros HS HE Hpq. destruct end_marker_head as [t Ht]. rewrite Ht in HE.
  destruct (Nat.le_gt_cases (p + List.length start_marker) q) as [|Hq];
    [assumption|].
  exfalso. apply start_marker_tail.
  exact (overlap_shares_head _ _ _ _ _ _ HS HE Hpq Hq).
Qed.

Lemma find_index doc sub :
  find doc sub <> -1 -> exists p, index sub doc = Some p /\ find doc sub = Z.of_nat p.
Proof.
  unfold find. destruct (index sub doc) as [p|]; [|congruence].
  intros _. now exists p.
Qed.

Lemma find_index_nat doc sub p :
  find doc sub = Z.of_nat p -> index sub doc = Some p.
Proof.
  unfold find. destruct (index sub doc) as [i|]; [|lia].
  intros Hi. f_equal. lia.
Qed.

Lemma contains_find sub doc : contains sub doc = true <-> find doc sub <> -1.
Proof.
  unfold contains, find. destruct (index sub doc); split; try congruence; lia.
Qed.

Lemma slice_nat {A} (l : list A) (i j : nat) :
  (i <= j)%nat -> (j <= List.length l)%nat ->
  slice l (Z.of_nat i) (Z.of_nat j) = skipn i (firstn j l).
Proof.
  intros Hij Hj. unfold slice. rewrite !clamp_nonneg by lia. unfold len.
  replace (Z.to_nat (Z.min (Z.of_nat i) _)) with i by lia.
  replace (Z.to_nat (Z.min (Z.of_nat j) _)) with j by lia.
  now rewrite skipn_firstn_comm.
Qed.

(** [update] raises exactly when the end marker is missing: the test on
    [start_idx] can never succeed. *)
Lemma update_raise_iff doc R :
  update doc R = Raise not_found <-> contains end_marker doc = false.
Proof.
  unfold update. rewrite splice_raise_iff. unfold contains.
  destruct (index end_marker doc); split; congruence.
Qed.

Lemma update_returns doc R :
  contains end_marker doc = true -> exists out, update doc R = Return out.
Proof.
  intros Hc. destruct (update doc R) as [out|e] eqn:Eu; [now exists out|].
  exfalso. unfold update, splice in Eu.
  rewrite start_idx_not_sentinel in Eu. simpl orb in Eu.
  destruct (find doc end_marker =? -1) eqn:Ef; [|discriminate].
  apply Z.eqb_eq in Ef. apply contains_find in Hc. contradiction.
Qed.

End MarkerFacts.

(** C1 (the defect): a README without the start marker but with the end
    marker is not rejected.  [find] answers [-1], the length of the marker
    is added before the comparison with [-1], and [update] goes on to cut
    the README at index 16 and returns a new content. *)
Theorem update_missing_start_marker_undetected :
  contains ReadmeUpdater.start_marker Samples.readme_no_start = false /\
  contains ReadmeUpdater.end_marker Samples.readme_no_start = true /\
  ReadmeUpdater.update Samples.readme_no_start (lit "NEW") =
  Return (lit "# Hi <!-- /ARTIC" ++ [NL; NL] ++ lit "NEW" ++ [NL]
          ++ lit "<!-- /ARTICLES --> bye").
Proof. repeat split. Qed.

(** The same defect for any pair of markers: no exception whenever the end
    marker is present, whatever the start marker. *)
Lemma splice_ignores_start_marker S E doc R :
  contains E doc = true -> exists out, ReadmeUpdater.splice S E doc R = Return out.
Proof.
  intros Hc. destruct (ReadmeUpdater.splice S E doc R) as [out|e] eqn:Eu;
    [now exists out|].
  exfalso. unfold ReadmeUpdater.splice in Eu.
  rewrite start_idx_not_sentinel in Eu. simpl orb in Eu.
  destruct (find doc E =? -1) eqn:Ef; [|discriminate].
  apply Z.eqb_eq in Ef. apply contains_find in Hc. contradiction.
Qed.

(** C2 as worded fails: [strip] trims both ends of the kept prefix and of
    the kept suffix, so a README that begins or ends with white space
    loses it, where a right-trimmed prefix and a left-trimmed suffix would
    keep it. *)
Lemma update_not_as_documented :
  contains ReadmeUpdater.start_marker Samples.readme_padded = true /\
  contains ReadmeUpdater.end_marker Samples.readme_padded = true /\
  find Samples.readme_padded ReadmeUpdater.start_marker
    < find Samples.readme_padded ReadmeUpdater.end_marker /\
  ReadmeUpdater.update Samples.readme_padded (lit "NEW") <>
  Return (splice_as_documented ReadmeUpdater.start_marker
            ReadmeUpdater.end_marker Samples.readme_padded (lit "NEW")).
Proof. repeat split. vm_compute. discriminate. Qed.

(** C2 (amended): when the first start marker is followed by the first end
    marker, the new content is the text up to and including the start
    marker stripped on both sides, two newlines, the stripped replacement,
    one newline, and the text from the end marker on stripped on both
    sides.  The markers being solid, the prefix loses its leading white
    space only and the suffix its trailing white space only. *)
Theorem update_between_markers A B C R :
  find (A ++ ReadmeUpdater.start_marker ++ B ++ ReadmeUpdater.end_marker ++ C)
       ReadmeUpdater.start_marker = len A ->
  find (A ++ ReadmeUpdater.start_marker ++ B ++ ReadmeUpdater.end_marker ++ C)
       ReadmeUpdater.end_marker = len (A ++ ReadmeUpdater.start_marker ++ B) ->
  ReadmeUpdater.update
    (A ++ ReadmeUpdater.start_marker ++ B ++ ReadmeUpdater.end_marker ++ C) R =
  Return (strip (A ++ ReadmeUpdater.start_marker) ++ [NL; NL]
          ++ strip R ++ [NL] ++ strip (ReadmeUpdater.end_marker ++ C))
  /\ strip (A ++ ReadmeUpdater.start_marker) = lstrip A ++ ReadmeUpdater.start_marker
  /\ strip (ReadmeUpdater.end_marker ++ C) = ReadmeUpdater.end_marker ++ rstrip C.
Proof.
  intros HS HE. apply find_index_nat in HS, HE. repeat split.
  - now apply splice_between.
  - apply strip_before; [apply start_marker_starts | apply start_marker_ends].
  - apply strip_after; [apply end_marker_starts | apply end_marker_ends].
Qed.

(** The amended C2 on the padded README. *)
Lemma update_between_markers_witness :
  ReadmeUpdater.update Samples.readme_padded (lit "NEW") =
  Return (lit "pre <!-- ARTICLES -->" ++ [NL; NL] ++ lit "NEW" ++ [NL]
          ++ lit "<!-- /ARTICLES --> post").
Proof.
  exact (proj1 (update_between_markers (lit " pre ") (lit " old ")
                  (lit " post ") (lit "NEW") eq_refl eq_refl)).
Defined.

(** C3: on a README with exactly one start marker and exactly one end
    marker, the start marker first, and a replacement that contains
    neither, [update] applied to its own result returns that result. *)
Theorem update_idempotent doc R p q :
  occurrences ReadmeUpdater.start_marker doc = [p] ->
  occurrences ReadmeUpdater.end_marker doc = [q] ->
  (p < q)%nat ->
  occurrences ReadmeUpdater.start_marker R = [] ->
  occurrences ReadmeUpdater.end_marker R = [] ->
  exists out,
    ReadmeUpdater.update doc R = Return out /\
    ReadmeUpdater.update out R = Return out.
Proof.
  intros HS HE Hpq _ HR.
  apply occurrences_first in HS, HE. apply occurrences_none in HR.
  apply splice_idempotent with (p := p) (q := q); try assumption.
  - apply start_marker_starts.
  - apply start_marker_ends.
  - apply end_marker_starts.
  - apply end_marker_ends.
  - apply end_marker_one_line.
  - now apply markers_apart with (doc := doc).
Qed.

(** C3 on a README with one pair of markers. *)
Lemma update_idempotent_witness :
  exists out,
    ReadmeUpdater.update Samples.readme_plain (lit "NEW") = Return out /\
    ReadmeUpdater.update out (lit "NEW") = Return out.
Proof.
  apply (update_idempotent Samples.readme_plain (lit "NEW") 4 26);
    [reflexivity | reflexivity | lia | reflexivity | reflexivity].
Defined.

(** C10: when both markers occur and the first end marker begins before
    the end of the first start marker, [update] returns, and the text from
    the end marker up to the end of the start marker closes the kept prefix
    and opens the kept suffix, so that it is twice in the new content. *)
Theorem update_overlap_duplicates doc R :
  find doc ReadmeUpdater.start_marker <> -1 ->
  find doc ReadmeUpdater.end_marker <> -1 ->
  find doc ReadmeUpdater.end_marker
    < find doc ReadmeUpdater.start_marker + len ReadmeUpdater.start_marker ->
  exists P Q span,
    span = slice doc (find doc ReadmeUpdater.end_marker)
             (find doc ReadmeUpdater.start_marker + len ReadmeUpdater.start_marker)
    /\ span <> []
    /\ strip (slice_to doc (find doc ReadmeUpdater.start_marker
                            + len ReadmeUpdater.start_marker)) = P ++ span
    /\ strip (slice_from doc (find doc ReadmeUpdater.end_marker)) = span ++ Q
    /\ ReadmeUpdater.update doc R =
       Return (P ++ span ++ [NL; NL] ++ strip R ++ [NL] ++ span ++ Q).
Proof.
  intros HS HE Hlt.
  destruct (find_index _ _ HS) as (p & Hp & Hfp).
  destruct (find_index _ _ HE) as (q & Hq & Hfq).
  rewrite Hfp, Hfq in *. unfold len in *.
  rewrite <- Nat2Z.inj_add in *.
  set (n := (p + List.length ReadmeUpdater.start_marker)%nat) in *.
  assert (Hqn : (q < n)%nat) by lia.
  destruct (index_split _ _ _ Hp) as (a & r1 & Hs1 & Ha).
  assert (Hn : (n <= List.length doc)%nat)
    by (rewrite Hs1, !List.length_app; unfold n; lia).
  destruct (splice_overlap _ _ start_marker_ends end_marker_starts
              doc R p q Hp Hq Hqn) as (Hne & H1 & H2 & H3).
  fold n in Hne, H1, H2, H3.
  exists (lstrip (firstn q doc)), (rstrip (skipn n doc)),
         (skipn q (firstn n doc)).
  repeat split.
  - rewrite slice_nat by lia. reflexivity.
  - exact Hne.
  - unfold slice_to. rewrite clamp_nonneg by lia. unfold len.
    replace (Z.to_nat _) with n by lia. exact H1.
  - unfold slice_from. rewrite clamp_nonneg by lia. unfold len.
    replace (Z.to_nat _) with q by lia. exact H2.
  - exact H3.
Qed.

(** C10 on a README whose end marker comes first. *)
Lemma update_overlap_duplicates_witness :
  exists P Q span,
    span = lit "<!-- /ARTICLES --> b <!-- ARTICLES -->"
    /\ ReadmeUpdater.update Samples.readme_swapped (lit "NEW") =
       Return (P ++ span ++ [NL; NL] ++ lit "NEW" ++ [NL] ++ span ++ Q).
Proof.
  destruct (update_overlap_duplicates Samples.readme_swapped (lit "NEW"))
    as (P & Q & span & Hspan & _ & _ & _ & Hu);
    [vm_compute; discriminate | vm_compute; discriminate | reflexivity |].
  exists P, Q, span. split; [rewrite Hspan; reflexivity | exact Hu].
Defined.

(** ** sorted(..., reverse=True): order, content, stability *)

Section SortFacts.

Context {A : Type} (key : A -> Z * Z).
Implicit Types (x y : A) (l : list A).

Local Abbreviation before := (before key).

Lemma tuple_lt_le a b : tuple_lt a b = true -> tuple_le a b.
Proof. unfold tuple_lt, tuple_le. destruct a, b; simpl. lia. Qed.

Lemma tuple_nlt_le a b : tuple_lt a b = false -> tuple_le b a.
Proof. unfold tuple_lt, tuple_le. destruct a, b; simpl. lia. Qed.

Lemma tuple_lt_neq a b : tuple_lt a b = true -> a <> b.
Proof. unfold tuple_lt. intros Hlt ->. destruct b; simpl in *. lia. Qed.

Lemma tuple_le_trans a b c : tuple_le a b -> tuple_le b c -> tuple_le a c.
Proof. unfold tuple_le. destruct a, b, c; simpl. lia. Qed.

Lemma insert_reverse_perm x l : Permutation (insert_reverse key x l) (x :: l).
Proof.
  induction l as [|y l IH]; simpl; [reflexivity|].
  destruct (tuple_lt (key x) (key y)); [|reflexivity].
  rewrite IH. apply perm_swap.
Qed.

Lemma sorted_reverse_perm l : Permutation (sorted_reverse key l) l.
Proof.
  induction l as [|x l IH]; simpl; [reflexivity|].
  rewrite insert_reverse_perm. now constructor.
Qed.

Lemma sorted_reverse_length l :
  List.length (sorted_reverse key l) = List.length l.
Proof. apply Permutation_length, sorted_reverse_perm. Qed.

Lemma insert_reverse_sorted x l :
  StronglySorted before l -> StronglySorted before (insert_reverse key x l).
Proof.
  induction 1 as [|y l Hs IH Hy]; simpl.
  - repeat constructor.
  - destruct (tuple_lt (key x) (key y)) eqn:E.
    + constructor; [exact IH|].
      apply (Permutation_Forall (Permutation_sym (insert_reverse_perm x l))).
      constructor; [|exact Hy]. now apply tuple_lt_le.
    + apply tuple_nlt_le in E. constructor; [now constructor|].
      constructor; [exact E|].
      eapply List.Forall_impl; [|exact Hy]. intros z Hz.
      unfold before in *. eapply tuple_le_trans; eassumption.
Qed.

Lemma sorted_reverse_sorted l : StronglySorted before (sorted_reverse key l).
Proof.
  induction l as [|x l IH]; simpl; [constructor|].
  now apply insert_reverse_sorted.
Qed.

Lemma insert_reverse_stable k x l :
  filter (fun y => key y = k) (insert_reverse key x l)
  = filter (fun y => key y = k) (x :: l).
Proof.
  induction l as [|y l IH]; simpl; [reflexivity|].
  destruct (tuple_lt (key x) (key y)) eqn:E; [|reflexivity].
  apply tuple_lt_neq in E.
  rewrite (filter_cons _ y), IH, !filter_cons.
  repeat case_decide; congruence.
Qed.

Lemma sorted_reverse_stable k l :
  filter (fun y => key y = k) (sorted_reverse key l)
  = filter (fun y => key y = k) l.
Proof.
  induction l as [|x l IH]; simpl; [reflexivity|].
  rewrite insert_reverse_stable, !filter_cons, IH. reflexivity.
Qed.

Lemma StronglySorted_firstn n l :
  StronglySorted before l -> StronglySorted before (firstn n l).
Proof.
  intros Hs. revert n. induction Hs as [|y l Hs IH Hy]; intros [|n]; simpl;
    try constructor.
  - apply IH.
  - rewrite <- (firstn_skipn n l) in Hy. now apply Forall_app in Hy.
Qed.

End SortFacts.

(** ** ArticleFilter *)

Section FilterFacts.

Import ArticleFilter Samples.

Lemma get_top_articles_length articles n :
  len (get_top_articles articles n) =
  if n <? 0 then Z.max (len articles + n) 0 else Z.min n (len articles).
Proof.
  unfold get_top_articles. rewrite slice_to_length. unfold len.
  now rewrite sorted_reverse_length.
Qed.

End FilterFacts.

(** C4 as worded fails for a negative bound: the slice [[:top_n]] then
    drops that many articles from the end instead of returning nothing. *)
Lemma get_top_articles_negative_bound :
  -1 <= 0 /\
  ArticleFilter.get_top_articles
    [Samples.article_a; Samples.article_b; Samples.article_c; Samples.article_d]
    (-1)
  = [Samples.article_b; Samples.article_d; Samples.article_a].
Proof. split; [lia | reflexivity]. Qed.

(** C4 (amended): [get_top_articles] returns [min n (len articles)]
    articles for every [n >= 0], none for [n = 0], and
    [max (len articles + n) 0] articles for a negative [n]. *)
Theorem get_top_articles_count articles n :
  len (ArticleFilter.get_top_articles articles n) =
    (if n <? 0 then Z.max (len articles + n) 0 else Z.min n (len articles))
  /\ ArticleFilter.get_top_articles articles 0 = [].
Proof.
  split; [apply get_top_articles_length|].
  unfold ArticleFilter.get_top_articles. apply slice_to_zero.
Qed.

(** C5 as worded fails for a negative limit, for the same reason. *)
Lemma limit_articles_negative_limit :
  -1 <= 0 /\
  ArticleFilter.limit_articles
    [Samples.article_a; Samples.article_b; Samples.article_c; Samples.article_d]
    (-1)
  = [Samples.article_a; Samples.article_b; Samples.article_c].
Proof. split; [lia | reflexivity]. Qed.

(** C5 (amended): [limit_articles] returns a prefix of its input, of
    length [min n (len articles)] for [n >= 0] and [max (len articles + n) 0]
    for a negative [n]; it is empty for [n = 0] and the whole input once
    [n] reaches its length. *)
Theorem limit_articles_prefix articles n :
  (exists rest, articles = ArticleFilter.limit_articles articles n ++ rest)
  /\ len (ArticleFilter.limit_articles articles n) =
       (if n <? 0 then Z.max (len articles + n) 0 else Z.min n (len articles))
  /\ ArticleFilter.limit_articles articles 0 = []
  /\ ArticleFilter.limit_articles articles (Z.max n (len articles)) = articles.
Proof.
  unfold ArticleFilter.limit_articles. repeat split.
  - apply slice_to_prefix.
  - apply slice_to_length.
  - apply slice_to_zero.
  - apply slice_to_all. lia.
Qed.

(** ** get_top_articles on list objects *)

Section ObjectFacts.

Implicit Types (st : gmap Objects.loc (list Article)) (a : Objects.loc).

Lemma alloc_fresh items st a :
  is_Some (st !! a) -> (Objects.alloc items st).1 <> a.
Proof.
  intros Ha Heq. simpl in Heq. apply elem_of_dom in Ha.
  rewrite <- Heq in Ha. exact (is_fresh (dom st) Ha).
Qed.

Lemma alloc_lookup items st :
  (Objects.alloc items st).2 !! (Objects.alloc items st).1 = Some items.
Proof. simpl. apply lookup_insert_eq. Qed.

Lemma alloc_preserves items st a :
  is_Some (st !! a) -> (Objects.alloc items st).2 !! a = st !! a.
Proof.
  intros Ha. simpl. apply lookup_insert_ne.
  exact (alloc_fresh items st a Ha).
Qed.

(** The call returns a new list object holding the ranked articles, and
    every list that existed before the call still has its items. *)
Lemma get_top_articles_object st a articles n :
  st !! a = Some articles ->
  exists top st',
    Objects.get_top_articles a n st = Some (top, st')
    /\ st' !! top = Some (ArticleFilter.get_top_articles articles n)
    /\ top <> a
    /\ forall l, is_Some (st !! l) -> st' !! l = st !! l.
Proof.
  intros Ha. unfold Objects.get_top_articles. rewrite Ha. simpl.
  rewrite lookup_insert_eq. simpl.
  set (sorted := sorted_reverse ArticleFilter.sort_key articles).
  set (l1 := fresh (dom st)).
  set (st1 := <[l1 := sorted]> st).
  set (l2 := fresh (dom st1)).
  assert (H1 : forall l, is_Some (st !! l) -> st1 !! l = st !! l).
  { intros l Hl. exact (alloc_preserves sorted st l Hl). }
  assert (H2 : forall l, is_Some (st1 !! l) ->
                         <[l2 := slice_to sorted n]> st1 !! l = st1 !! l).
  { intros l Hl. exact (alloc_preserves (slice_to sorted n) st1 l Hl). }
  eexists _, _. split; [reflexivity|]. split; [|split].
  - apply lookup_insert_eq.
  - apply (alloc_fresh (slice_to sorted n) st1 a).
    rewrite H1; rewrite Ha; eauto.
  - intros l Hl. rewrite H2, H1; [reflexivity | exact Hl |].
    rewrite H1; exact Hl.
Qed.

End ObjectFacts.

(** C6: the articles [get_top_articles] returns are in non-increasing
    order of [(positive_reactions_count, comments_count)], a missing
    counter counting as 0; for each key, the returned articles of that key
    are, in their original order, the first ones the input has; and the
    call leaves the list it was given, and every other list, as it was,
    the result being a new list. *)
Theorem get_top_articles_sorted_stable articles n :
  StronglySorted (before ArticleFilter.sort_key)
    (ArticleFilter.get_top_articles articles n)
  /\ (forall k, exists rest,
        filter (fun x => ArticleFilter.sort_key x = k) articles
        = filter (fun x => ArticleFilter.sort_key x = k)
            (ArticleFilter.get_top_articles articles n) ++ rest)
  /\ (forall (st : gmap Objects.loc (list Article)) a,
        st !! a = Some articles ->
        exists top st',
          Objects.get_top_articles a n st = Some (top, st')
          /\ st' !! top = Some (ArticleFilter.get_top_articles articles n)
          /\ top <> a
          /\ forall l, is_Some (st !! l) -> st' !! l = st !! l).
Proof.
  split; [|split].
  - apply StronglySorted_firstn, sorted_reverse_sorted.
  - intros k.
    destruct (slice_to_prefix
                (sorted_reverse ArticleFilter.sort_key articles) n)
      as [rest Hrest].
    exists (filter (fun x => ArticleFilter.sort_key x = k) rest).
    rewrite <- (sorted_reverse_stable ArticleFilter.sort_key k articles).
    rewrite Hrest at 1. apply filter_app.
  - intros st a Ha. now apply get_top_articles_object.
Qed.

(** C6 on a store with one list of four articles. *)
Lemma get_top_articles_sorted_stable_witness :
  exists top st',
    Objects.get_top_articles 1%positive 3
      {[ 1%positive := [Samples.article_a; Samples.article_b;
                        Samples.article_c; Samples.article_d] ]}
    = Some (top, st')
    /\ st' !! top = Some [Samples.article_b; Samples.article_d;
                          Samples.article_a]
    /\ st' !! 1%positive = Some [Samples.article_a; Samples.article_b;
                                 Samples.article_c; Samples.article_d].
Proof.
  destruct (get_top_articles_sorted_stable
              [Samples.article_a; Samples.article_b;
               Samples.article_c; Samples.article_d] 3) as (_ & _ & Hst).
  destruct (Hst {[ 1%positive := [Samples.article_a; Samples.article_b;
                                  Samples.article_c; Samples.article_d] ]}
              1%positive (lookup_singleton_eq _ _))
    as (top & st' & Hcall & Htop & _ & Hkeep).
  exists top, st'. split; [exact Hcall|]. split; [exact Htop|].
  rewrite Hkeep; [apply lookup_singleton_eq|].
  rewrite lookup_singleton_eq. eauto.
Defined.

(** The sort key of an article without counters is [(0, 0)]. *)
Example sort_key_absent :
  ArticleFilter.sort_key Samples.article_c = (0, 0).
Proof. reflexivity. Qed.

(** ** ArticleWriter *)

Lemma fold_write {X} (g : X -> str) (l : list X) (f : str) :
  fold_left (fun f x => ArticleWriter.write f (g x)) l f
  = f ++ concat (List.map g l).
Proof.
  revert f; induction l as [|x l IH]; intros f; simpl.
  - now rewrite app_nil_r.
  - rewrite IH. unfold ArticleWriter.write. now rewrite <- List.app_assoc.
Qed.

(** C9: the file written is the heading line, an empty line, and then for
    each article, in order, the line [- [title](link)] with title and link
    copied as they are. *)
Theorem write_articles_content articles :
  ArticleWriter.write_articles articles =
  lit "## Articles" ++ [NL] ++ [NL]
  ++ concat (List.map
       (fun article =>
          lit "- [" ++ title article ++ lit "](" ++ link article
          ++ lit ")" ++ [NL])
       articles).
Proof.
  unfold ArticleWriter.write_articles. rewrite fold_write.
  unfold ArticleWriter.write, ArticleWriter.bullet. reflexivity.
Qed.

(** The rendering given as an example in the design document. *)
Example write_articles_two :
  ArticleWriter.write_articles [Samples.article_a; Samples.article_b] =
  lit "## Articles" ++ [NL; NL]
  ++ lit "- [A](http://x)" ++ [NL] ++ lit "- [B](http://y)" ++ [NL].
Proof. reflexivity. Qed.

(** Nothing is escaped: markdown brackets in a title come out unchanged. *)
Example write_articles_verbatim :
  ArticleWriter.write_articles
    [mkArticle (lit "a]b[c") (lit "x)y(") None None] =
  lit "## Articles" ++ [NL; NL] ++ lit "- [a]b[c](x)y()" ++ [NL].
Proof. reflexivity. Qed.

(** ** main: the per-source ranking and the global limit *)

Section MainFacts.

Variable fetched : ArticleSource -> list Article.

Local Abbreviation contribution := (contribution fetched).

Lemma fetch_loop_all article_limit article_type sources all_articles :
  fetch_loop (fun s => Return (fetched s)) article_limit article_type
    sources all_articles
  = Return (all_articles
            ++ concat (List.map (contribution article_limit article_type)
                         sources)).
Proof.
  revert all_articles; induction sources as [|s sources IH]; intros acc.
  - simpl. now rewrite app_nil_r.
  - simpl. unfold mbind, outcome_bind. rewrite IH. f_equal.
    rewrite <- List.app_assoc. f_equal. f_equal.
    unfold contribution. case_decide as Hd.
    + destruct Hd as (-> & -> & Hl). rewrite bool_decide_eq_true_2 by reflexivity.
      now replace (article_limit >? 0) with true by (symmetry; lia).
    + case_bool_decide as Ht; [|reflexivity].
      destruct (Z.gtb_spec article_limit 0); [|reflexivity].
      destruct (isinstance_DevToSource s) eqn:Ei; [|reflexivity].
      exfalso. apply Hd. repeat split; [exact Ht | lia].
Qed.

End MainFacts.

(** C7: when every fetch succeeds, the list [main] hands to the writer is
    the concatenation, in source order, of what each source fetched, a
    source's articles being replaced by [get_top_articles] of them with
    the global limit exactly when the source is a [DevToSource], the type
    is ["top"] and the limit is positive, and this concatenation cut by
    [limit_articles] with the same limit. *)
Theorem collect_articles_policy (fetched : ArticleSource -> list Article)
    (sources : list ArticleSource) (article_limit : Z) (article_type : str) :
  collect_articles (fun source => Return (fetched source))
    sources article_limit article_type
  = Return
      (ArticleFilter.limit_articles
         (concat
            (List.map
               (fun source =>
                  if decide (isinstance_DevToSource source = true
                             /\ article_type = lit "top"
                             /\ 0 < article_limit)
                  then ArticleFilter.get_top_articles (fetched source)
                         article_limit
                  else fetched source)
               sources))
         article_limit).
Proof.
  unfold collect_articles. rewrite fetch_loop_all. reflexivity.
Qed.

(** A fetch that raises ends the run with that exception. *)
Lemma collect_articles_raise fetch_articles source sources e
    article_limit article_type :
  fetch_articles source = Raise e ->
  collect_articles fetch_articles (source :: sources)
    article_limit article_type = Raise e.
Proof. intros Hf. unfold collect_articles. simpl. now rewrite Hf. Qed.

(** The end-to-end example of the design document, with one limit for
    both stages: a feed of three articles and a Dev.to source of four. *)
Example collect_articles_two_sources :
  collect_articles
    (fun source =>
       match source with
       | RSSFeedSource _ =>
           Return [Samples.article_c; Samples.article_c; Samples.article_c]
       | DevToSource _ =>
           Return [Samples.article_a; Samples.article_b;
                   Samples.article_c; Samples.article_d]
       end)
    [RSSFeedSource (lit "https://example.com/feed.xml");
     DevToSource (lit "alice")]
    4 (lit "top")
  = Return [Samples.article_c; Samples.article_c; Samples.article_c;
            Samples.article_b].
Proof. reflexivity. Qed.

(** ** DevToSource.extract_username_from_url and SourceFactory *)

Section FactoryFacts.

Context `{CharClasses}.

Import DevToSource SourceFactory.

Lemma match_group_truthy s g : match_group s = Some g -> truthy g = true.
Proof.
  unfold match_group. destruct (run s) as [|c r]; [discriminate|].
  now intros [= <-].
Qed.

Lemma match_handle_truthy s g : match_handle s = Some g -> truthy g = true.
Proof.
  unfold match_handle. destruct s as [|c s]; [discriminate|].
  destruct (c =? 64)%N.
  - destruct (match_group s) as [g'|] eqn:Eg.
    + intros [= <-]. exact (match_group_truthy _ _ Eg).
    + apply match_group_truthy.
  - apply match_group_truthy.
Qed.

Lemma match_here_truthy s g : match_here s = Some g -> truthy g = true.
Proof.
  unfold match_here. destruct (startswith _ s); [|discriminate].
  apply match_handle_truthy.
Qed.

Lemma search_truthy s g : search s = Some g -> truthy g = true.
Proof.
  induction s as [|c s IH]; intros Hs.
  - change (search []) with
      (match match_here [] with Some g => Some g | None => None end) in Hs.
    destruct (match_here []) as [g'|] eqn:Em; [|discriminate].
    injection Hs as <-. exact (match_here_truthy _ _ Em).
  - change (search (c :: s)) with
      (match match_here (c :: s) with Some g => Some g | None => search s end)
      in Hs.
    destruct (match_here (c :: s)) as [g'|] eqn:Em; [|exact (IH Hs)].
    injection Hs as <-. exact (match_here_truthy _ _ Em).
Qed.

(** A username the pattern captures is never empty: group 1 is a [+]. *)
Lemma extract_username_truthy url username :
  extract_username_from_url url = Some username -> truthy username = true.
Proof.
  unfold extract_username_from_url.
  destruct (search url) as [g|] eqn:Es; [|discriminate].
  intros [= <-]. exact (search_truthy _ _ Es).
Qed.

(** The captured username is made of characters of the set only. *)
Lemma run_in_set s : Forall (fun c => in_set c = true) (run s).
Proof.
  induction s as [|c s IH]; simpl; [constructor|].
  destruct (in_set c) eqn:Ec; constructor; assumption.
Qed.

End FactoryFacts.

(** C8: a URL that contains ["dev.to"] gives a [DevToSource] with the
    extracted username when the extraction succeeds and nothing when it
    fails; any other URL gives an [RSSFeedSource] for that URL.  The test
    for ["dev.to"] is made first. *)
Theorem create_source_cases `{CharClasses} (url : str) :
  (contains (lit "dev.to") url = true ->
   forall username,
     DevToSource.extract_username_from_url url = Some username ->
     SourceFactory.create_source url = Some (DevToSource username))
  /\ (contains (lit "dev.to") url = true ->
      DevToSource.extract_username_from_url url = None ->
      SourceFactory.create_source url = None)
  /\ (contains (lit "dev.to") url = false ->
      SourceFactory.create_source url = Some (RSSFeedSource url)).
Proof.
  unfold SourceFactory.create_source. repeat split.
  - intros -> username Hu. rewrite Hu.
    now rewrite (extract_username_truthy _ _ Hu).
  - intros -> Hu. now rewrite Hu.
  - now intros ->.
Qed.

(** C8 on the three URLs of the design document. *)
Lemma create_source_cases_witness :
  @SourceFactory.create_source ascii_classes (lit "https://dev.to/@alice")
    = Some (DevToSource (lit "alice"))
  /\ @SourceFactory.create_source ascii_classes (lit "https://dev.to/")
     = None
  /\ @SourceFactory.create_source ascii_classes
       (lit "https://example.com/feed.xml")
     = Some (RSSFeedSource (lit "https://example.com/feed.xml")).
Proof.
  split; [|split].
  - exact (proj1 (@create_source_cases ascii_classes
                    (lit "https://dev.to/@alice"))
             eq_refl (lit "alice") eq_refl).
  - exact (proj1 (proj2 (@create_source_cases ascii_classes
                           (lit "https://dev.to/")))
             eq_refl eq_refl).
  - exact (proj2 (proj2 (@create_source_cases ascii_classes
                           (lit "https://example.com/feed.xml")))
             eq_refl).
Defined.

(** ** URLs written in ASCII *)

(** On an ASCII string the pattern behaves the same for every choice of
    the character classes, so the outcome can be computed. *)
Section AsciiUrls.

Context `{CharClasses}.

Import DevToSource SourceFactory.

Implicit Types (s url : str).

Lemma in_set_ascii c :
  (c < 128)%N -> in_set c = in_set (H := ascii_classes) c.
Proof.
  intros Hc. unfold in_set. now rewrite re_w_ascii, re_d_ascii.
Qed.

Lemma run_ascii s : is_ascii s -> run s = run (H := ascii_classes) s.
Proof.
  induction 1 as [|c s Hc Hs IH]; simpl; [reflexivity|].
  rewrite <- in_set_ascii, IH by exact Hc. reflexivity.
Qed.

Lemma match_group_ascii s :
  is_ascii s -> match_group s = match_group (H := ascii_classes) s.
Proof. intros Hs. unfold match_group. now rewrite run_ascii. Qed.

Lemma match_handle_ascii s :
  is_ascii s -> match_handle s = match_handle (H := ascii_classes) s.
Proof.
  intros Hs. unfold match_handle. destruct Hs as [|c s Hc Hs]; [reflexivity|].
  rewrite (match_group_ascii s Hs).
  rewrite (match_group_ascii (c :: s)) by now constructor.
  reflexivity.
Qed.

Lemma match_here_ascii s :
  is_ascii s -> match_here s = match_here (H := ascii_classes) s.
Proof.
  intros Hs. unfold match_here. destruct (startswith _ s); [|reflexivity].
  apply match_handle_ascii. now apply Forall_drop.
Qed.

Lemma search_ascii s :
  is_ascii s -> search s = search (H := ascii_classes) s.
Proof.
  induction 1 as [|c s Hc Hs IH].
  - reflexivity.
  - change (@search H (c :: s)) with
      (match @match_here H (c :: s) with
       | Some g => Some g
       | None => @search H s
       end).
    rewrite match_here_ascii, IH by now constructor. reflexivity.
Qed.

Lemma create_source_ascii url :
  is_ascii url -> create_source url = create_source (H := ascii_classes) url.
Proof.
  intros Hu. unfold create_source, extract_username_from_url.
  now rewrite search_ascii.
Qed.

Lemma is_ascii_lit (t : string) :
  forallb (fun c => (c <? 128)%N) (lit t) = true -> is_ascii (lit t).
Proof.
  intros Hf. apply List.Forall_forall. intros c Hc.
  rewrite forallb_forall in Hf. apply N.ltb_lt. now apply Hf.
Qed.

(** The three URLs of the design document. *)
Example create_source_alice :
  create_source (lit "https://dev.to/@alice")
  = Some (DevToSource (lit "alice")).
Proof. rewrite create_source_ascii by now apply is_ascii_lit. reflexivity. Qed.

Example create_source_feed :
  create_source (lit "https://example.com/feed.xml")
  = Some (RSSFeedSource (lit "https://example.com/feed.xml")).
Proof. reflexivity. Qed.

Example create_source_no_handle :
  create_source (lit "https://dev.to/") = None.
Proof. rewrite create_source_ascii by now apply is_ascii_lit. reflexivity. Qed.

(** A URL that merely mentions ["dev.to"] is taken for a Dev.to one. *)
Example create_source_mention :
  create_source (lit "https://example.com/dev.to/feed.xml")
  = Some (DevToSource (lit "feed")).
Proof. rewrite create_source_ascii by now apply is_ascii_lit. reflexivity. Qed.

End AsciiUrls.

(** * Further properties of the code *)

(** ** ReadmeUpdater.update: errors, markers, discarded region *)

Section UpdateFacts.

Import ReadmeUpdater.

Implicit Types (doc R out : str).

Lemma contains_app sub pre post : contains sub (pre ++ sub ++ post) = true.
Proof.
  unfold contains.
  destruct (index sub (pre ++ sub ++ post)) eqn:Ei; [reflexivity|].
  apply index_None_app_r in Ei.
  destruct (sub ++ post) eqn:Es; simpl in Ei;
    rewrite <- ?Es, startswith_app in Ei; discriminate.
Qed.

Lemma Return_inj {X} (a b : X) : Return a = Return b -> a = b.
Proof. now intros [= ->]. Qed.

Lemma contains_app_r sub pre t :
  contains sub t = true -> contains sub (pre ++ t) = true.
Proof.
  unfold contains. intros Ht.
  destruct (index sub (pre ++ t)) eqn:Ei; [reflexivity|].
  apply index_None_app_r in Ei. now rewrite Ei in Ht.
Qed.

Lemma skipn_index sub doc q :
  index sub doc = Some q -> exists post, skipn q doc = sub ++ post.
Proof.
  intros Hi. destruct (index_split _ _ _ Hi) as (x & post & Hs & Hx).
  exists post. rewrite Hs, skipn_app, (skipn_all2 x) by lia.
  now rewrite Hx, Nat.sub_diag.
Qed.

(** Whatever the start marker, a result ends with the stripped text from
    the first end marker onward. *)
Lemma splice_tail S E doc R q :
  index E doc = Some q ->
  splice S E doc R =
  Return (strip (slice_to doc (find doc S + len S)) ++ [NL; NL]
          ++ strip R ++ [NL] ++ strip (skipn q doc)).
Proof.
  intros HE. unfold splice.
  assert (Hf : find doc E = Z.of_nat q) by (unfold find; now rewrite HE).
  destruct (index_split _ _ _ HE) as (x & post & Hs & Hx).
  assert (Hq : (q <= List.length doc)%nat)
    by (rewrite Hs, List.length_app; lia).
  rewrite start_idx_not_sentinel, Hf.
  replace (Z.of_nat q =? -1) with false by (symmetry; apply Z.eqb_neq; lia).
  simpl orb. cbv iota.
  replace (slice_from doc (Z.of_nat q)) with (skipn q doc); [reflexivity|].
  unfold slice_from. rewrite clamp_nonneg by lia. f_equal. unfold len. lia.
Qed.

End UpdateFacts.

(** X1: [update] raises exactly when the README has no end marker, and
    the exception is then the [ValueError] of the source; with an end
    marker it returns a content, whether or not there is a start marker. *)
Theorem update_outcome doc R :
  match ReadmeUpdater.update doc R with
  | Raise e => e = not_found /\ contains ReadmeUpdater.end_marker doc = false
  | Return _ => contains ReadmeUpdater.end_marker doc = true
  end.
Proof.
  destruct (contains ReadmeUpdater.end_marker doc) eqn:Ec.
  - destruct (update_returns doc R Ec) as [out ->]. reflexivity.
  - apply update_raise_iff with (R := R) in Ec. rewrite Ec. now split.
Qed.

(** X2: a content [update] returns still has the end marker, and has the
    start marker whenever the README had it: the markers survive an
    update, so that the next run finds them again and does not raise. *)
Theorem update_keeps_markers doc R out :
  ReadmeUpdater.update doc R = Return out ->
  contains ReadmeUpdater.end_marker out = true
  /\ (contains ReadmeUpdater.start_marker doc = true ->
      contains ReadmeUpdater.start_marker out = true)
  /\ forall R', exists out', ReadmeUpdater.update out R' = Return out'.
Proof.
  intros Hu.
  assert (Hc : contains ReadmeUpdater.end_marker doc = true).
  { destruct (contains ReadmeUpdater.end_marker doc) eqn:Ec; [reflexivity|].
    apply update_raise_iff with (R := R) in Ec. congruence. }
  assert (HE : exists q, index ReadmeUpdater.end_marker doc = Some q).
  { unfold contains in Hc.
    destruct (index ReadmeUpdater.end_marker doc) as [q|]; [eauto | discriminate]. }
  destruct HE as [q HE].
  destruct (skipn_index _ _ _ HE) as [post Hpost].
  assert (Hend : contains ReadmeUpdater.end_marker out = true).
  { unfold ReadmeUpdater.update in Hu.
    rewrite (splice_tail _ _ doc R q HE) in Hu. apply Return_inj in Hu.
    rewrite <- Hu, Hpost, strip_after
      by (apply end_marker_starts || apply end_marker_ends).
    apply contains_app_r, (contains_app_r _ [NL; NL]), contains_app_r,
      (contains_app_r _ [NL]), (contains_app _ []). }
  split; [exact Hend|]. split.
  - intros Hs. unfold contains in Hs.
    destruct (index ReadmeUpdater.start_marker doc) as [p|] eqn:HS;
      [|discriminate].
    unfold ReadmeUpdater.update in Hu.
    rewrite (splice_found _ _ doc R p q HS HE) in Hu. apply Return_inj in Hu.
    rewrite <- Hu.
    destruct (index_split _ _ _ HS) as (a & r1 & Hs1 & Ha).
    replace (firstn (p + List.length ReadmeUpdater.start_marker) doc)
      with (a ++ ReadmeUpdater.start_marker).
    2:{ rewrite Hs1, List.app_assoc.
        replace (p + List.length ReadmeUpdater.start_marker)%nat
          with (List.length (a ++ ReadmeUpdater.start_marker) + 0)%nat
          by (rewrite List.length_app; lia).
        rewrite firstn_app_2. simpl. now rewrite app_nil_r. }
    rewrite strip_before
      by (apply start_marker_starts || apply start_marker_ends).
    rewrite <- List.app_assoc. apply contains_app.
  - intros R'. now apply update_returns.
Qed.

(** X2 on the README whose start marker is missing. *)
Lemma update_keeps_markers_witness :
  contains ReadmeUpdater.end_marker
    (lit "# Hi <!-- /ARTIC" ++ [NL; NL] ++ lit "NEW" ++ [NL]
     ++ lit "<!-- /ARTICLES --> bye") = true.
Proof.
  exact (proj1 (update_keeps_markers Samples.readme_no_start (lit "NEW") _
                  eq_refl)).
Defined.

(** X3: what stood between the two markers is discarded: two READMEs that
    differ only there give the same content. *)
Theorem update_discards_region A B B' C R :
  find (A ++ ReadmeUpdater.start_marker ++ B ++ ReadmeUpdater.end_marker ++ C)
       ReadmeUpdater.start_marker = len A ->
  find (A ++ ReadmeUpdater.start_marker ++ B ++ ReadmeUpdater.end_marker ++ C)
       ReadmeUpdater.end_marker = len (A ++ ReadmeUpdater.start_marker ++ B) ->
  find (A ++ ReadmeUpdater.start_marker ++ B' ++ ReadmeUpdater.end_marker ++ C)
       ReadmeUpdater.start_marker = len A ->
  find (A ++ ReadmeUpdater.start_marker ++ B' ++ ReadmeUpdater.end_marker ++ C)
       ReadmeUpdater.end_marker = len (A ++ ReadmeUpdater.start_marker ++ B') ->
  ReadmeUpdater.update
    (A ++ ReadmeUpdater.start_marker ++ B ++ ReadmeUpdater.end_marker ++ C) R
  = ReadmeUpdater.update
      (A ++ ReadmeUpdater.start_marker ++ B' ++ ReadmeUpdater.end_marker ++ C) R.
Proof.
  intros H1 H2 H3 H4. apply find_index_nat in H1, H2, H3, H4.
  unfold ReadmeUpdater.update.
  rewrite (splice_between _ _ A B C R H1 H2).
  now rewrite (splice_between _ _ A B' C R H3 H4).
Qed.

(** X3 on two READMEs with different old regions. *)
Lemma update_discards_region_witness :
  ReadmeUpdater.update
    (lit "pre <!-- ARTICLES --> old <!-- /ARTICLES --> post") (lit "NEW")
  = ReadmeUpdater.update
      (lit "pre <!-- ARTICLES -->something else<!-- /ARTICLES --> post")
      (lit "NEW").
Proof.
  exact (update_discards_region (lit "pre ") (lit " old ")
           (lit "something else") (lit " post") (lit "NEW")
           eq_refl eq_refl eq_refl eq_refl).
Defined.

(** ** ArticleFilter: the best articles, repeated calls *)

Section RankFacts.

Context {A : Type} (key : A -> Z * Z).
Implicit Types (x y : A) (l : list A).

Lemma tuple_le_nlt a b : tuple_le b a -> tuple_lt a b = false.
Proof. unfold tuple_lt, tuple_le. destruct a, b; simpl. lia. Qed.

Lemma StronglySorted_app_cross l1 l2 x y :
  StronglySorted (before key) (l1 ++ l2) ->
  In x l1 -> In y l2 -> before key x y.
Proof.
  induction l1 as [|z l1 IH]; intros Hs Hx Hy; [destruct Hx|].
  simpl in Hs. apply StronglySorted_inv in Hs as [Hs Hz].
  destruct Hx as [-> | Hx]; [|now apply IH].
  rewrite List.Forall_forall in Hz. apply Hz, in_or_app. now right.
Qed.

(** Sorting a list that is already in order returns it unchanged. *)
Lemma sorted_reverse_fixed l :
  StronglySorted (before key) l -> sorted_reverse key l = l.
Proof.
  induction 1 as [|x l Hs IH Hx]; [reflexivity|].
  simpl. rewrite IH. destruct l as [|y l]; [reflexivity|]. simpl.
  apply Forall_inv in Hx. unfold before in Hx.
  now rewrite (tuple_le_nlt _ _ Hx).
Qed.

End RankFacts.

Lemma slice_to_twice {A} (l : list A) n m :
  0 <= n -> 0 <= m -> slice_to (slice_to l n) m = slice_to l (Z.min n m).
Proof.
  intros Hn Hm. unfold slice_to. rewrite !clamp_nonneg by lia.
  rewrite firstn_firstn. f_equal. unfold len.
  rewrite List.length_firstn. lia.
Qed.

(** X4: the articles [get_top_articles] returns are taken from its input,
    the others being left out, and none of the articles left out has a
    greater key than one that is returned. *)
Theorem get_top_articles_best articles n :
  exists rest,
    Permutation (ArticleFilter.get_top_articles articles n ++ rest) articles
    /\ forall x y,
         In x (ArticleFilter.get_top_articles articles n) -> In y rest ->
         tuple_le (ArticleFilter.sort_key y) (ArticleFilter.sort_key x).
Proof.
  unfold ArticleFilter.get_top_articles, slice_to.
  set (sorted := sorted_reverse ArticleFilter.sort_key articles).
  set (k := clamp (len sorted) n).
  exists (skipn k sorted). split.
  - rewrite firstn_skipn. apply sorted_reverse_perm.
  - intros x y Hx Hy.
    apply (StronglySorted_app_cross ArticleFilter.sort_key
             (firstn k sorted) (skipn k sorted)); try assumption.
    rewrite firstn_skipn. apply sorted_reverse_sorted.
Qed.

(** X5: for a bound that is not negative, ranking a ranked list again
    with the same bound changes nothing. *)
Theorem get_top_articles_again articles n :
  0 <= n ->
  ArticleFilter.get_top_articles (ArticleFilter.get_top_articles articles n) n
  = ArticleFilter.get_top_articles articles n.
Proof.
  intros Hn. unfold ArticleFilter.get_top_articles at 1.
  rewrite sorted_reverse_fixed.
  - unfold ArticleFilter.get_top_articles.
    rewrite slice_to_twice by lia. f_equal. lia.
  - unfold ArticleFilter.get_top_articles.
    apply StronglySorted_firstn, sorted_reverse_sorted.
Qed.

(** X5 on four articles and the bound 3. *)
Lemma get_top_articles_again_witness :
  ArticleFilter.get_top_articles
    (ArticleFilter.get_top_articles
       [Samples.article_a; Samples.article_b; Samples.article_c;
        Samples.article_d] 3) 3
  = ArticleFilter.get_top_articles
      [Samples.article_a; Samples.article_b; Samples.article_c;
       Samples.article_d] 3.
Proof. apply get_top_articles_again. lia. Defined.

(** With a negative bound a second call drops articles again. *)
Example get_top_articles_again_negative :
  ArticleFilter.get_top_articles
    (ArticleFilter.get_top_articles
       [Samples.article_a; Samples.article_b; Samples.article_c] (-1)) (-1)
  = [Samples.article_b].
Proof. reflexivity. Qed.

(** X6: two limits that are not negative compose to the smaller one. *)
Theorem limit_articles_twice articles n m :
  0 <= n -> 0 <= m ->
  ArticleFilter.limit_articles (ArticleFilter.limit_articles articles n) m
  = ArticleFilter.limit_articles articles (Z.min n m).
Proof. intros Hn Hm. now apply slice_to_twice. Qed.

(** X6 on four articles. *)
Lemma limit_articles_twice_witness :
  ArticleFilter.limit_articles
    (ArticleFilter.limit_articles
       [Samples.article_a; Samples.article_b; Samples.article_c;
        Samples.article_d] 3) 2
  = ArticleFilter.limit_articles
      [Samples.article_a; Samples.article_b; Samples.article_c;
       Samples.article_d] (Z.min 3 2).
Proof. apply limit_articles_twice; lia. Defined.

(** ** main: bounds, failures, the articles file *)

Section CollectFacts.

Variable fetch_articles : ArticleSource -> outcome (list Article).
Implicit Types (sources pre post : list ArticleSource).

Local Abbreviation fetches := (fetches fetch_articles).

Lemma fetch_loop_app article_limit article_type pre post all_articles :
  fetch_loop fetch_articles article_limit article_type (pre ++ post)
    all_articles
  = (all_articles' ← fetch_loop fetch_articles article_limit article_type
                       pre all_articles;
     fetch_loop fetch_articles article_limit article_type post all_articles').
Proof.
  revert all_articles; induction pre as [|s pre IH]; intros acc; simpl.
  - reflexivity.
  - destruct (fetch_articles s) as [articles|e]; simpl; [apply IH | reflexivity].
Qed.

Lemma fetch_loop_returns article_limit article_type pre all_articles :
  Forall fetches pre ->
  exists all_articles',
    fetch_loop fetch_articles article_limit article_type pre all_articles
    = Return all_articles'.
Proof.
  intros Hpre. revert all_articles.
  induction Hpre as [|s pre [articles Hs] _ IH]; intros acc; simpl.
  - now exists acc.
  - rewrite Hs. simpl. apply IH.
Qed.

Lemma fetch_loop_raise article_limit article_type sources all_articles e :
  fetch_loop fetch_articles article_limit article_type sources all_articles
  = Raise e ->
  exists pre source post,
    sources = pre ++ source :: post /\ Forall fetches pre
    /\ fetch_articles source = Raise e.
Proof.
  revert all_articles; induction sources as [|s sources IH]; intros acc;
    simpl; [discriminate|].
  destruct (fetch_articles s) as [articles|e'] eqn:Hs; simpl.
  - intros Hl. destruct (IH _ Hl) as (pre & source & post & -> & Hpre & He).
    exists (s :: pre), source, post. repeat split; [|exact He].
    constructor; [now exists articles | exact Hpre].
  - intros [= ->]. exists [], s, sources. repeat split; [constructor | exact Hs].
Qed.

End CollectFacts.

(** X7: the run fails with a fetch exception exactly when some source
    fails to fetch, and the exception is that of the first source that
    fails; the sources after it are not asked. *)
Theorem collect_articles_failure fetch_articles sources article_limit
    article_type e :
  collect_articles fetch_articles sources article_limit article_type = Raise e
  <-> exists pre source post,
        sources = pre ++ source :: post
        /\ Forall (fetches fetch_articles) pre
        /\ fetch_articles source = Raise e.
Proof.
  unfold collect_articles. split.
  - destruct (fetch_loop fetch_articles article_limit article_type sources [])
      as [l|e'] eqn:Hl; simpl; [discriminate|].
    intros [= ->]. exact (fetch_loop_raise _ _ _ _ _ _ Hl).
  - intros (pre & source & post & -> & Hpre & He).
    rewrite fetch_loop_app.
    destruct (fetch_loop_returns fetch_articles article_limit article_type
                pre [] Hpre) as [acc ->].
    simpl. now rewrite He.
Qed.

(** X7 with a feed that fetches and a Dev.to source that does not. *)
Lemma collect_articles_failure_witness :
  collect_articles
    (fun source =>
       match source with
       | RSSFeedSource _ => Return [Samples.article_c]
       | DevToSource _ => Raise (HTTPError "404")
       end)
    [RSSFeedSource (lit "https://example.com/feed.xml");
     DevToSource (lit "alice");
     RSSFeedSource (lit "https://example.org/rss")]
    5 (lit "top")
  = Raise (HTTPError "404").
Proof.
  apply collect_articles_failure.
  exists [RSSFeedSource (lit "https://example.com/feed.xml")],
         (DevToSource (lit "alice")),
         [RSSFeedSource (lit "https://example.org/rss")].
  repeat split. constructor; [|constructor]. now eexists.
Defined.

(** X8: with a limit that is not negative, a run never hands more than
    [article_limit] articles to the writer. *)
Theorem collect_articles_bound fetch_articles sources article_limit
    article_type all_articles :
  collect_articles fetch_articles sources article_limit article_type
  = Return all_articles ->
  0 <= article_limit ->
  len all_articles <= article_limit.
Proof.
  unfold collect_articles.
  destruct (fetch_loop fetch_articles article_limit article_type sources [])
    as [l|e]; simpl; [|discriminate].
  intros Hr Hl. apply Return_inj in Hr. rewrite <- Hr.
  unfold ArticleFilter.limit_articles. rewrite slice_to_length.
  destruct (Z.ltb_spec article_limit 0); lia.
Qed.

(** X8 on two feeds of three articles and the limit 4. *)
Lemma collect_articles_bound_witness :
  len [Samples.article_c; Samples.article_c; Samples.article_c;
       Samples.article_c] <= 4.
Proof.
  apply (collect_articles_bound
           (fun _ => Return [Samples.article_c; Samples.article_c;
                             Samples.article_c])
           [RSSFeedSource (lit "a"); RSSFeedSource (lit "b")]
           4 (lit "recent"));
    [reflexivity | lia].
Defined.

(** X9: ranking and the global limit use the same number, so a Dev.to
    source that comes first with at least [article_limit] articles fills
    the whole result in ["top"] mode: the result is its ranked articles
    and the sources after it contribute nothing. *)
Theorem collect_articles_first_devto fetched username sources article_limit :
  0 < article_limit ->
  article_limit <= len (fetched (DevToSource username)) ->
  collect_articles (fun source => Return (fetched source))
    (DevToSource username :: sources) article_limit (lit "top")
  = Return (ArticleFilter.get_top_articles (fetched (DevToSource username))
              article_limit).
Proof.
  intros Hpos Hlen. unfold collect_articles. rewrite fetch_loop_all.
  simpl. unfold mbind, outcome_bind, mret. f_equal.
  unfold contribution at 1. rewrite decide_True by (repeat split; lia).
  set (top := ArticleFilter.get_top_articles _ _).
  assert (Htop : len top = article_limit).
  { unfold top. rewrite get_top_articles_length.
    destruct (Z.ltb_spec article_limit 0); lia. }
  unfold ArticleFilter.limit_articles. rewrite <- Htop at 2.
  apply slice_to_app.
Qed.

(** X9 with a Dev.to source of four articles before a feed. *)
Lemma collect_articles_first_devto_witness :
  collect_articles
    (fun source =>
       Return (match source with
               | RSSFeedSource _ => [Samples.article_c]
               | DevToSource _ =>
                   [Samples.article_a; Samples.article_b; Samples.article_c;
                    Samples.article_d]
               end))
    [DevToSource (lit "alice"); RSSFeedSource (lit "https://example.com/rss")]
    3 (lit "top")
  = Return [Samples.article_b; Samples.article_d; Samples.article_a].
Proof.
  apply (collect_articles_first_devto
           (fun source =>
              match source with
              | RSSFeedSource _ => [Samples.article_c]
              | DevToSource _ =>
                  [Samples.article_a; Samples.article_b; Samples.article_c;
                   Samples.article_d]
              end)
           (lit "alice") [RSSFeedSource (lit "https://example.com/rss")] 3);
    [lia | vm_compute; discriminate].
Defined.



(** ** The command line and the lines of the articles file *)

Section SplitFacts.

Implicit Types (s piece : str) (sep c : char).

Lemma split_nonempty sep s : split sep s <> [].
Proof.
  destruct s as [|c s]; simpl; [discriminate|].
  destruct (c =? sep)%N; [discriminate|].
  destruct (split sep s); discriminate.
Qed.

(** A text without the separator, followed by the separator. *)
Lemma split_app sep a b :
  ~ In sep a -> split sep (a ++ sep :: b) = a :: split sep b.
Proof.
  induction a as [|c a IH]; intros Ha; simpl.
  - now rewrite N.eqb_refl.
  - destruct (N.eqb_spec c sep) as [->|_].
    + exfalso. apply Ha. now left.
    + rewrite IH; [reflexivity|]. intros Hin. apply Ha. now right.
Qed.

Lemma split_whole sep a : ~ In sep a -> split sep a = [a].
Proof.
  induction a as [|c a IH]; intros Ha; simpl; [reflexivity|].
  destruct (N.eqb_spec c sep) as [->|_].
  - exfalso. apply Ha. now left.
  - rewrite IH; [reflexivity|]. intros Hin. apply Ha. now right.
Qed.

Lemma join_split sep s : join sep (split sep s) = s.
Proof.
  induction s as [|c s IH]; simpl; [reflexivity|].
  destruct (N.eqb_spec c sep) as [->|_].
  - simpl. destruct (split sep s) eqn:E;
      [now destruct (split_nonempty sep s) | now rewrite IH].
  - destruct (split sep s) as [|piece pieces] eqn:E;
      [now destruct (split_nonempty sep s)|].
    simpl in *. destruct pieces; simpl in *; now rewrite <- IH.
Qed.

Lemma split_pieces sep s : Forall (fun piece => ~ In sep piece) (split sep s).
Proof.
  induction s as [|c s IH]; simpl.
  - constructor; [intros [] | constructor].
  - destruct (N.eqb_spec c sep) as [->|Hne].
    + constructor; [intros [] | exact IH].
    + destruct (split sep s) as [|piece pieces] eqn:E;
        [now destruct (split_nonempty sep s)|].
      apply Forall_cons_iff in IH as [Hp Hps].
      constructor; [|exact Hps].
      intros [Hc | Hin]; [now apply Hne | now apply Hp].
Qed.

Lemma split_length sep s :
  List.length (split sep s)
  = S (List.length (List.filter (fun c => (c =? sep)%N) s)).
Proof.
  induction s as [|c s IH]; simpl; [reflexivity|].
  destruct (c =? sep)%N; simpl; [now rewrite IH|].
  destruct (split sep s) as [|piece pieces] eqn:E;
    [now destruct (split_nonempty sep s)|].
  exact IH.
Qed.

End SplitFacts.

(** X11: the list of feed URLs is never empty, has one URL more than the
    argument has commas, no URL contains a comma, and the URLs joined by
    commas are the argument again. *)
Theorem FEED_URLS_split argv1 :
  FEED_URLS argv1 <> []
  /\ List.length (FEED_URLS argv1)
     = S (List.length (List.filter (fun c => (c =? 44)%N) argv1))
  /\ Forall (fun url => ~ In 44%N url) (FEED_URLS argv1)
  /\ join 44%N (FEED_URLS argv1) = argv1.
Proof.
  unfold FEED_URLS. repeat split.
  - apply split_nonempty.
  - apply split_length.
  - apply split_pieces.
  - apply join_split.
Qed.

(** An empty argument is one empty URL, and an empty URL is a feed. *)
Example FEED_URLS_empty `{CharClasses} :
  make_sources (FEED_URLS []) = [RSSFeedSource []].
Proof. reflexivity. Qed.

Section WriterLines.

Lemma bullet_no_newline article :
  ~ In NL (title article) -> ~ In NL (link article) ->
  ~ In NL (bullet_line article).
Proof.
  intros Ht Hl. unfold bullet_line. rewrite !in_app_iff.
  intros [H | [H | [H | [H | H]]]]; try contradiction;
    vm_compute in H; intuition discriminate.
Qed.

Lemma bullet_split article :
  ArticleWriter.bullet article = bullet_line article ++ [NL].
Proof.
  unfold ArticleWriter.bullet, bullet_line. now rewrite <- !List.app_assoc.
Qed.

Lemma split_bullets articles :
  Forall (fun article => ~ In NL (title article) /\ ~ In NL (link article))
    articles ->
  split NL (concat (List.map ArticleWriter.bullet articles))
  = List.map bullet_line articles ++ [[]].
Proof.
  induction 1 as [|article articles [Ht Hl] _ IH]; [reflexivity|].
  change (split NL (ArticleWriter.bullet article
                    ++ concat (List.map ArticleWriter.bullet articles))
          = bullet_line article :: List.map bullet_line articles ++ [[]]).
  rewrite bullet_split, <- List.app_assoc.
  change ([NL] ++ ?x) with (NL :: x).
  rewrite split_app by now apply bullet_no_newline.
  now rewrite IH.
Qed.

End WriterLines.

(** X12: as long as no title and no link contains a newline, the lines of
    the articles file are the heading, an empty line and one bullet line
    per article in order; the file ends with a newline. *)
Theorem write_articles_lines articles :
  Forall (fun article => ~ In NL (title article) /\ ~ In NL (link article))
    articles ->
  split NL (ArticleWriter.write_articles articles)
  = lit "## Articles" :: [] :: List.map bullet_line articles ++ [[]].
Proof.
  intros Hno.
  assert (Hw : ArticleWriter.write_articles articles
               = lit "## Articles"
                 ++ NL :: ([] ++ NL :: concat (List.map ArticleWriter.bullet
                                                 articles))).
  { unfold ArticleWriter.write_articles. rewrite fold_write. reflexivity. }
  rewrite Hw.
  rewrite split_app by (vm_compute; intuition discriminate).
  rewrite split_app by (intros []).
  now rewrite split_bullets.
Qed.

(** X12 on two articles. *)
Lemma write_articles_lines_witness :
  split NL (ArticleWriter.write_articles [Samples.article_a; Samples.article_b])
  = [lit "## Articles"; []; lit "- [A](http://x)"; lit "- [B](http://y)"; []].
Proof.
  apply (write_articles_lines [Samples.article_a; Samples.article_b]).
  repeat constructor; vm_compute; intuition discriminate.
Defined.

(** A title with a newline breaks its bullet over two lines. *)
Example write_articles_broken_line :
  split NL (ArticleWriter.write_articles
              [mkArticle (lit "A" ++ [NL] ++ lit "B") (lit "u") None None])
  = [lit "## Articles"; []; lit "- [A"; lit "B](u)"; []].
Proof. reflexivity. Qed.

(** ** The shape of an extracted username *)

Section ExtractFacts.

Context `{CharClasses}.

Import DevToSource SourceFactory.

Implicit Types (s url g : str).

Lemma run_split s : exists post, s = run s ++ post /\ stops post.
Proof.
  induction s as [|c s (post & Hs & Hp)]; simpl.
  - now exists [].
  - destruct (in_set c) eqn:Ec.
    + exists post. split; [simpl; now rewrite <- Hs | exact Hp].
    + exists (c :: s). split; [reflexivity | exact Ec].
Qed.

Lemma match_group_shape s g :
  match_group s = Some g ->
  exists post,
    s = g ++ post /\ g <> [] /\ Forall (fun c => in_set c = true) g
    /\ stops post.
Proof.
  unfold match_group. intros Hg.
  destruct (run_split s) as (post & Hs & Hp).
  pose proof (run_in_set s) as Hin.
  destruct (run s) as [|c r]; [discriminate|].
  injection Hg as <-. exists post. repeat split; try assumption. discriminate.
Qed.

Lemma match_handle_shape s g :
  match_handle s = Some g ->
  exists at_sign post,
    s = at_sign ++ g ++ post /\ (at_sign = [] \/ at_sign = [64%N])
    /\ g <> [] /\ Forall (fun c => in_set c = true) g /\ stops post.
Proof.
  unfold match_handle. destruct s as [|c s]; [discriminate|].
  destruct (N.eqb_spec c 64) as [->|_].
  - destruct (match_group s) as [g'|] eqn:Eg.
    + intros [= <-].
      destruct (match_group_shape _ _ Eg) as (post & -> & Hg).
      exists [64%N], post. repeat split; try apply Hg. now right.
    + intros Hg. destruct (match_group_shape _ _ Hg) as (post & Hs & Hg').
      exists [], post. repeat split; try apply Hg'; [exact Hs | now left].
  - intros Hg. destruct (match_group_shape _ _ Hg) as (post & Hs & Hg').
    exists [], post. repeat split; try apply Hg'; [exact Hs | now left].
Qed.

Lemma match_here_shape s g :
  match_here s = Some g ->
  exists at_sign post,
    s = lit "dev.to/" ++ at_sign ++ g ++ post
    /\ (at_sign = [] \/ at_sign = [64%N])
    /\ g <> [] /\ Forall (fun c => in_set c = true) g /\ stops post.
Proof.
  unfold match_here. destruct (startswith _ s) eqn:Es; [|discriminate].
  apply startswith_true in Es as [rest ->].
  change (skipn 7 (lit "dev.to/" ++ rest)) with rest.
  intros Hg. destruct (match_handle_shape _ _ Hg) as (a & post & -> & Hrest).
  now exists a, post.
Qed.

Lemma search_shape s g :
  search s = Some g ->
  exists pre at_sign post,
    s = pre ++ lit "dev.to/" ++ at_sign ++ g ++ post
    /\ (at_sign = [] \/ at_sign = [64%N])
    /\ g <> [] /\ Forall (fun c => in_set c = true) g /\ stops post.
Proof.
  induction s as [|c s IH]; intros Hs.
  - change (search []) with
      (match match_here [] with Some g => Some g | None => None end) in Hs.
    destruct (match_here []) as [g'|] eqn:Em; [|discriminate].
    injection Hs as <-.
    destruct (match_here_shape _ _ Em) as (a & post & Hshape).
    now exists [], a, post.
  - change (search (c :: s)) with
      (match match_here (c :: s) with Some g => Some g | None => search s end)
      in Hs.
    destruct (match_here (c :: s)) as [g'|] eqn:Em.
    + injection Hs as <-.
      destruct (match_here_shape _ _ Em) as (a & post & Hshape).
      now exists [], a, post.
    + destruct (IH Hs) as (pre & a & post & -> & Hshape).
      now exists (c :: pre), a, post.
Qed.

Lemma extract_username_search url :
  extract_username_from_url url = search url.
Proof. unfold extract_username_from_url. now destruct (search url). Qed.

End ExtractFacts.

(** X13: an extracted username sits in the URL right after ["dev.to/"] or
    ["dev.to/@"]; it is not empty, is made of characters of [[\\w\\d]]
    only, and is as long as it can be: what follows it in the URL, if
    anything, begins with a character outside that set. *)
Theorem extract_username_shape `{CharClasses} url username :
  DevToSource.extract_username_from_url url = Some username ->
  exists pre at_sign post,
    url = pre ++ lit "dev.to/" ++ at_sign ++ username ++ post
    /\ (at_sign = [] \/ at_sign = [64%N])
    /\ username <> []
    /\ Forall (fun c => DevToSource.in_set c = true) username
    /\ match post with
       | [] => True
       | c :: _ => DevToSource.in_set c = false
       end.
Proof. rewrite extract_username_search. apply search_shape. Qed.

(** X13 on a profile URL with a path behind the handle. *)
Lemma extract_username_shape_witness :
  exists pre at_sign post,
    lit "https://dev.to/@alice/my-post"
    = pre ++ lit "dev.to/" ++ at_sign ++ lit "alice" ++ post
    /\ (at_sign = [] \/ at_sign = [64%N]).
Proof.
  destruct (@extract_username_shape ascii_classes
              (lit "https://dev.to/@alice/my-post") (lit "alice") eq_refl)
    as (pre & a & post & Hurl & Ha & _).
  exists pre, a, post. split; [exact Hurl | exact Ha].
Defined.

Section FactoryInverse.

Context `{CharClasses}.

Lemma extract_contains url username :
  DevToSource.extract_username_from_url url = Some username ->
  contains (lit "dev.to/") url = true /\ contains (lit "dev.to") url = true.
Proof.
  rewrite extract_username_search. intros Hs.
  destruct (search_shape _ _ Hs) as (pre & a & post & -> & _). split.
  - apply contains_app.
  - change (lit "dev.to/") with (lit "dev.to" ++ [47%N]).
    rewrite <- List.app_assoc. apply contains_app.
Qed.

End FactoryInverse.

(** X14: what [create_source] returned tells how the URL was read: a
    [DevToSource] exactly when the pattern matched, with the username it
    captured and no test of ["dev.to"] needed; an [RSSFeedSource] exactly
    when the URL does not contain ["dev.to"], with the URL unchanged;
    nothing exactly when the URL contains ["dev.to"] and the pattern does
    not match. *)
Theorem create_source_inverse `{CharClasses} url :
  (forall username,
     SourceFactory.create_source url = Some (DevToSource username)
     <-> DevToSource.extract_username_from_url url = Some username)
  /\ (forall feed_url,
        SourceFactory.create_source url = Some (RSSFeedSource feed_url)
        <-> contains (lit "dev.to") url = false /\ feed_url = url)
  /\ (SourceFactory.create_source url = None
      <-> contains (lit "dev.to") url = true
          /\ DevToSource.extract_username_from_url url = None).
Proof.
  unfold SourceFactory.create_source.
  destruct (contains (lit "dev.to") url) eqn:Ec.
  - destruct (DevToSource.extract_username_from_url url) as [u|] eqn:Eu.
    + rewrite (extract_username_truthy _ _ Eu). repeat split;
        try congruence; intros [? ?]; congruence.
    + repeat split; try congruence; intros [? ?]; congruence.
  - repeat split; try congruence.
    + intros Hu. apply extract_contains in Hu as [_ Hu]. congruence.
    + intros [_ ->]. reflexivity.
    + intros [? _]. congruence.
Qed.

(** X14 on a profile URL. *)
Lemma create_source_inverse_witness :
  @DevToSource.extract_username_from_url ascii_classes
    (lit "https://dev.to/bob_99") = Some (lit "bob_99").
Proof.
  apply (proj1 (@create_source_inverse ascii_classes
                  (lit "https://dev.to/bob_99"))).
  reflexivity.
Defined.

(** X15: a URL that contains ["dev.to"] but not ["dev.to/"] is dropped:
    the pattern needs the slash, while the test of the factory does not. *)
Theorem create_source_no_slash `{CharClasses} url :
  contains (lit "dev.to") url = true ->
  contains (lit "dev.to/") url = false ->
  SourceFactory.create_source url = None.
Proof.
  intros Hc Hs. unfold SourceFactory.create_source. rewrite Hc.
  destruct (DevToSource.extract_username_from_url url) as [u|] eqn:Eu;
    [|reflexivity].
  apply extract_contains in Eu as [Eu _]. congruence.
Qed.

(** X15 on the bare host name. *)
Lemma create_source_no_slash_witness :
  @SourceFactory.create_source ascii_classes (lit "https://dev.to") = None.
Proof. apply (@create_source_no_slash ascii_classes); reflexivity. Defined.

(** X16: [main] keeps at most one source per URL, and when no URL
    contains ["dev.to"] every URL becomes a feed source, in order. *)
Theorem make_sources_feeds `{CharClasses} feed_urls :
  (List.length (make_sources feed_urls) <= List.length feed_urls)%nat
  /\ (Forall (fun url => contains (lit "dev.to") url = false) feed_urls ->
      make_sources feed_urls = List.map RSSFeedSource feed_urls).
Proof.
  unfold make_sources, omap. split.
  - induction feed_urls as [|url urls IH]; simpl; [lia|].
    destruct (SourceFactory.create_source url); simpl; lia.
  - induction 1 as [|url urls Hu _ IH]; [reflexivity|]. simpl.
    unfold SourceFactory.create_source at 1. rewrite Hu. simpl.
    now rewrite IH.
Qed.

(** X16 on two feeds. *)
Lemma make_sources_feeds_witness :
  @make_sources ascii_classes
    [lit "https://a.example/rss"; lit "https://b.example/feed.xml"]
  = [RSSFeedSource (lit "https://a.example/rss");
     RSSFeedSource (lit "https://b.example/feed.xml")].
Proof.
  apply (proj2 (@make_sources_feeds ascii_classes
                  [lit "https://a.example/rss";
                   lit "https://b.example/feed.xml"])).
  repeat constructor.
Defined.

(** ** DevToSource.fetch_articles: the articles built from the response *)

Section DevToFacts.

Context {V : Type}.
Implicit Types (article d : gmap (list N) V).

Import DevToResponse.

Lemma entry_cases article :
  match first_missing article with
  | Some key => entry article = KeyError key
  | None => exists d, entry article = Built d /\ built_from article d
  end.
Proof.
  unfold first_missing, devto_keys, entry, getitem. simpl List.find.
  destruct (article !! lit "title") as [v1|] eqn:E1;
    [rewrite bool_decide_eq_false_2 by discriminate
    |rewrite bool_decide_eq_true_2 by reflexivity; reflexivity].
  destruct (article !! lit "url") as [v2|] eqn:E2;
    [rewrite bool_decide_eq_false_2 by discriminate
    |rewrite bool_decide_eq_true_2 by reflexivity; reflexivity].
  destruct (article !! lit "positive_reactions_count") as [v3|] eqn:E3;
    [rewrite bool_decide_eq_false_2 by discriminate
    |rewrite bool_decide_eq_true_2 by reflexivity; reflexivity].
  destruct (article !! lit "comments_count") as [v4|] eqn:E4;
    [rewrite bool_decide_eq_false_2 by discriminate
    |rewrite bool_decide_eq_true_2 by reflexivity; reflexivity].
  eexists. split; [reflexivity|]. unfold built_from.
  repeat split.
  - now rewrite lookup_insert_eq.
  - rewrite lookup_insert_ne by discriminate. now rewrite lookup_insert_eq.
  - do 2 rewrite lookup_insert_ne by discriminate.
    now rewrite lookup_insert_eq.
  - do 3 rewrite lookup_insert_ne by discriminate.
    now rewrite lookup_insert_eq.
  - intros key [v Hk]. simpl.
    destruct (decide (key = lit "title")) as [->|N1]; [now left|].
    destruct (decide (key = lit "link")) as [->|N2]; [now right; left|].
    destruct (decide (key = lit "positive_reactions_count")) as [->|N3];
      [now right; right; left|].
    destruct (decide (key = lit "comments_count")) as [->|N4];
      [now right; right; right; left|].
    rewrite !lookup_insert_ne in Hk by congruence.
    now rewrite lookup_empty in Hk.
Qed.

Lemma fetch_articles_built (articles : list (gmap (list N) V)) :
  Forall (fun article => first_missing article = None) articles ->
  exists ds, fetch_articles articles = Built ds /\ Forall2 built_from articles ds.
Proof.
  induction 1 as [|article articles Ha _ (ds & Hds & Hall)]; simpl.
  - exists []. split; [reflexivity | constructor].
  - pose proof (entry_cases article) as He. rewrite Ha in He.
    destruct He as (d & -> & Hd). simpl. rewrite Hds. simpl.
    exists (d :: ds). split; [reflexivity | now constructor].
Qed.

Lemma fetch_articles_raise (articles : list (gmap (list N) V)) key :
  fetch_articles articles = KeyError key ->
  exists pre article post,
    articles = pre ++ article :: post
    /\ Forall (fun article => first_missing article = None) pre
    /\ first_missing article = Some key.
Proof.
  induction articles as [|article articles IH]; simpl; [discriminate|].
  pose proof (entry_cases article) as He.
  destruct (first_missing article) as [k|] eqn:Ek.
  - rewrite He. simpl. intros [= ->].
    exists [], article, articles. repeat split; [constructor | exact Ek].
  - destruct He as (d & -> & _). simpl.
    destruct (fetch_articles articles) as [ds|k|msg]; simpl; try discriminate.
    intros [= ->]. destruct (IH eq_refl) as (pre & a & post & -> & Hpre & Ha).
    exists (article :: pre), a, post. repeat split; [|exact Ha].
    now constructor.
Qed.

Lemma fetch_articles_no_attribute_error (articles : list (gmap (list N) V)) msg :
  fetch_articles articles <> AttributeError msg.
Proof.
  induction articles as [|article articles IH]; simpl; [discriminate|].
  pose proof (entry_cases article) as He.
  destruct (first_missing article) as [k|].
  - rewrite He. discriminate.
  - destruct He as (d & -> & _). simpl.
    destruct (fetch_articles articles) as [ds|k|msg']; simpl;
      congruence.
Qed.

End DevToFacts.

(** X17: when every object of the response has the keys [title], [url],
    [positive_reactions_count] and [comments_count], the articles built
    are as many as the objects and in their order; each has the value of
    [url] under [link], the other three values under their own keys, and
    no other key. *)
Theorem devto_articles_built {V} (articles : list (gmap (list N) V)) :
  Forall (fun article => first_missing article = None) articles ->
  exists ds,
    DevToResponse.fetch_articles articles = Built ds
    /\ List.length ds = List.length articles
    /\ Forall2
         (fun article d =>
            d !! lit "title" = article !! lit "title"
            /\ d !! lit "link" = article !! lit "url"
            /\ d !! lit "positive_reactions_count"
               = article !! lit "positive_reactions_count"
            /\ d !! lit "comments_count" = article !! lit "comments_count"
            /\ forall key, is_Some (d !! key) -> In key
                 [lit "title"; lit "link"; lit "positive_reactions_count";
                  lit "comments_count"])
         articles ds.
Proof.
  intros Hall. destruct (fetch_articles_built articles Hall) as (ds & Hds & Hf).
  exists ds. repeat split; [exact Hds | | exact Hf].
  symmetry. exact (Forall2_length _ _ _ Hf).
Qed.

(** X17 on one object with an extra key. *)
Lemma devto_articles_built_witness :
  exists ds,
    DevToResponse.fetch_articles
      [ <[lit "title" := 1%nat]> (<[lit "url" := 2%nat]>
        (<[lit "positive_reactions_count" := 3%nat]>
         (<[lit "comments_count" := 4%nat]> (<[lit "id" := 5%nat]> ∅)))) ]
    = Built ds
    /\ List.length ds = 1%nat.
Proof.
  destruct (devto_articles_built
              [ <[lit "title" := 1%nat]> (<[lit "url" := 2%nat]>
                (<[lit "positive_reactions_count" := 3%nat]>
                 (<[lit "comments_count" := 4%nat]>
                  (<[lit "id" := 5%nat]> ∅)))) ])
    as (ds & Hds & Hlen & _).
  - repeat constructor.
  - exists ds. split; [exact Hds | exact Hlen].
Defined.

(** X18: the only exception the building of Dev.to articles raises is
    [KeyError], and it is raised exactly when some object lacks one of the
    four keys: the key reported is the first one, in the order [title],
    [url], [positive_reactions_count], [comments_count], that the first
    such object lacks. *)
Theorem devto_articles_key_error {V} (articles : list (gmap (list N) V)) :
  (forall key,
     DevToResponse.fetch_articles articles = KeyError key
     <-> exists pre article post,
           articles = pre ++ article :: post
           /\ Forall (fun article => first_missing article = None) pre
           /\ first_missing article = Some key)
  /\ forall msg, DevToResponse.fetch_articles articles <> AttributeError msg.
Proof.
  split; [|apply fetch_articles_no_attribute_error].
  intros key. split; [apply fetch_articles_raise|].
  intros (pre & article & post & -> & Hpre & Ha).
  induction Hpre as [|a pre Hfirst _ IH]; simpl.
  - pose proof (entry_cases article) as He. rewrite Ha in He.
    now rewrite He.
  - pose proof (entry_cases a) as He. rewrite Hfirst in He.
    destruct He as (d & -> & _). simpl.
    change (DevToResponse.fetch_articles (pre ++ article :: post))
      with (DevToResponse.fetch_articles (pre ++ article :: post)).
    now rewrite IH.
Qed.

(** X18 on an object without [url] behind a complete one. *)
Lemma devto_articles_key_error_witness :
  DevToResponse.fetch_articles
    [ <[lit "title" := 1%nat]> (<[lit "url" := 2%nat]>
      (<[lit "positive_reactions_count" := 3%nat]>
       (<[lit "comments_count" := 4%nat]> ∅)));
      <[lit "title" := 1%nat]> (<[lit "comments_count" := 4%nat]> ∅) ]
  = KeyError (lit "url").
Proof.
  apply (proj1 (devto_articles_key_error _)).
  eexists [_], _, []. repeat split. repeat constructor.
Defined.

(** ** RSSFeedSource._parse_feed_content: items and missing children *)

Section FeedFacts.

Import RSSFeed.

Implicit Types (item root : Element) (items : list Element).

Lemma parse_items_complete items :
  Forall complete_item items ->
  exists articles,
    parse_items items = Built articles
    /\ Forall2
         (fun item article =>
            exists t l,
              find item (lit "title") = Some t
              /\ find item (lit "link") = Some l
              /\ article = mkFeedArticle (text t) (text l))
         items articles.
Proof.
  induction 1 as [|item items [[t Ht] [l Hl]] _ (articles & Hp & Hall)].
  - exists []. split; [reflexivity | constructor].
  - simpl. rewrite Ht, Hl. simpl. rewrite Hp. simpl.
    eexists. split; [reflexivity|]. constructor; [|exact Hall].
    now exists t, l.
Qed.

Lemma parse_items_raise items msg :
  parse_items items = AttributeError msg -> Exists (fun item => ~ complete_item item) items.
Proof.
  induction items as [|item items IH]; simpl; [discriminate|].
  destruct (find item (lit "title")) as [t|] eqn:Ht; simpl.
  - destruct (find item (lit "link")) as [l|] eqn:Hl; simpl.
    + destruct (parse_items items) as [articles|k|msg']; simpl;
        try discriminate.
      intros [= ->]. right. now apply IH.
    + intros _. left. intros [_ [l Hl']]. unfold RSSFeed.find in *. congruence.
  - intros _. left. intros [[t Ht'] _]. unfold RSSFeed.find in *. congruence.
Qed.

Lemma parse_items_incomplete items :
  Exists (fun item => ~ complete_item item) items ->
  parse_items items
  = AttributeError "'NoneType' object has no attribute 'text'".
Proof.
  induction 1 as [item items Hbad | item items _ IH]; simpl.
  - destruct (find item (lit "title")) as [t|] eqn:Ht; [|reflexivity].
    destruct (find item (lit "link")) as [l|] eqn:Hl; [|reflexivity].
    exfalso. apply Hbad. split; eauto.
  - destruct (find item (lit "title")) as [t|]; [|reflexivity].
    destruct (find item (lit "link")) as [l|]; [|reflexivity].
    simpl. now rewrite IH.
Qed.

Lemma parse_items_no_key_error items key : parse_items items <> KeyError key.
Proof.
  induction items as [|item items IH]; simpl; [discriminate|].
  destruct (find item (lit "title")) as [t|]; [|discriminate].
  destruct (find item (lit "link")) as [l|]; [|discriminate].
  simpl. destruct (parse_items items) as [articles|k|msg]; simpl; congruence.
Qed.

Lemma findall_channel_item_spec root item :
  In item (findall_channel_item root) <->
  exists channel,
    In channel (children root) /\ tag channel = lit "channel"
    /\ In item (children channel) /\ tag item = lit "item".
Proof.
  unfold findall_channel_item. rewrite in_flat_map. split.
  - intros (channel & Hc & Hi).
    apply List.filter_In in Hc as [Hc Htc], Hi as [Hi Hti].
    apply bool_decide_eq_true in Htc, Hti. now exists channel.
  - intros (channel & Hc & Htc & Hi & Hti). exists channel.
    rewrite !List.filter_In. repeat split; try assumption;
      now apply bool_decide_eq_true.
Qed.

End FeedFacts.

(** X19: when every [item] under a [channel] of the root has a [title]
    and a [link] child, the feed gives one article per item, in document
    order, made of the text of the first [title] child and the text of the
    first [link] child; a text that is missing stays [None] and is no
    error. *)
Theorem parse_feed_articles root :
  Forall complete_item (RSSFeed.findall_channel_item root) ->
  exists articles,
    RSSFeed._parse_feed_content root = Built articles
    /\ List.length articles = List.length (RSSFeed.findall_channel_item root)
    /\ Forall2
         (fun item article =>
            exists t l,
              RSSFeed.find item (lit "title") = Some t
              /\ RSSFeed.find item (lit "link") = Some l
              /\ article = RSSFeed.mkFeedArticle (RSSFeed.text t)
                             (RSSFeed.text l))
         (RSSFeed.findall_channel_item root) articles.
Proof.
  intros Hall. unfold RSSFeed._parse_feed_content.
  destruct (parse_items_complete _ Hall) as (articles & Hp & Hf).
  exists articles. repeat split; [exact Hp | | exact Hf].
  symmetry. exact (Forall2_length _ _ _ Hf).
Qed.

(** X19 on a feed with one item whose title is empty. *)
Lemma parse_feed_articles_witness :
  exists articles,
    RSSFeed._parse_feed_content
      (RSSFeed.Elem (lit "rss") None
         [RSSFeed.Elem (lit "channel") None
            [RSSFeed.Elem (lit "title") (Some (lit "Blog")) [];
             RSSFeed.Elem (lit "item") None
               [RSSFeed.Elem (lit "title") None [];
                RSSFeed.Elem (lit "link") (Some (lit "http://x")) []]]])
    = Built articles
    /\ List.length articles = 1%nat.
Proof.
  destruct (parse_feed_articles
              (RSSFeed.Elem (lit "rss") None
                 [RSSFeed.Elem (lit "channel") None
                    [RSSFeed.Elem (lit "title") (Some (lit "Blog")) [];
                     RSSFeed.Elem (lit "item") None
                       [RSSFeed.Elem (lit "title") None [];
                        RSSFeed.Elem (lit "link") (Some (lit "http://x")) []]]]))
    as (articles & Hp & Hlen & _).
  - repeat constructor; vm_compute; eauto.
  - exists articles. split; [exact Hp | exact Hlen].
Defined.

(** X20: the feed parsing raises [AttributeError], and nothing else,
    exactly when some [item] under a [channel] of the root has no [title]
    or no [link] child; items elsewhere in the document are not looked
    at, and a document without such items gives the empty list. *)
Theorem parse_feed_attribute_error root :
  (RSSFeed._parse_feed_content root
   = AttributeError "'NoneType' object has no attribute 'text'"
   <-> Exists (fun item => ~ complete_item item)
         (RSSFeed.findall_channel_item root))
  /\ (forall msg,
        RSSFeed._parse_feed_content root = AttributeError msg ->
        msg = "'NoneType' object has no attribute 'text'"%string)
  /\ (forall key, RSSFeed._parse_feed_content root <> KeyError key)
  /\ (forall item,
        In item (RSSFeed.findall_channel_item root) <->
        exists channel,
          In channel (RSSFeed.children root)
          /\ RSSFeed.tag channel = lit "channel"
          /\ In item (RSSFeed.children channel)
          /\ RSSFeed.tag item = lit "item")
  /\ (RSSFeed.findall_channel_item root = [] ->
      RSSFeed._parse_feed_content root = Built []).
Proof.
  unfold RSSFeed._parse_feed_content.
  split; [|split; [|split; [|split]]].
  - split; [apply parse_items_raise | apply parse_items_incomplete].
  - intros msg Hm. pose proof (parse_items_raise _ _ Hm) as He.
    rewrite (parse_items_incomplete _ He) in Hm. congruence.
  - intros key. apply parse_items_no_key_error.
  - intros item. apply findall_channel_item_spec.
  - now intros ->.
Qed.

(** X20 on a feed whose only item has no link, and on an Atom document. *)
Lemma parse_feed_attribute_error_witness :
  RSSFeed._parse_feed_content
    (RSSFeed.Elem (lit "rss") None
       [RSSFeed.Elem (lit "channel") None
          [RSSFeed.Elem (lit "item") None
             [RSSFeed.Elem (lit "title") (Some (lit "A")) []]]])
  = AttributeError "'NoneType' object has no attribute 'text'"
  /\ RSSFeed._parse_feed_content
       (RSSFeed.Elem (lit "feed") None
          [RSSFeed.Elem (lit "entry") None
             [RSSFeed.Elem (lit "title") (Some (lit "A")) []]])
     = Built [].
Proof.
  split.
  - apply (proj1 (parse_feed_attribute_error _)).
    left. intros [_ [l Hl]]. discriminate Hl.
  - apply (proj2 (proj2 (proj2 (proj2 (parse_feed_attribute_error _))))).
    reflexivity.
Defined.
